(** * Calendar API (backend/app.py): validators, retention and update logic

    A shallow embedding of the decision logic of [backend/app.py]:
    the three validators ([validate_title], [validate_date],
    [validate_notes]), the retention rule ([cleanup_past_events]), the
    listing query ([get_events]) and the partial update ([update_event]).

    Modelling conventions.
    - A Python [str] is a [string]; its characters are the code points
      U+0000..U+00FF, classified as CPython classifies them
      ([str.isspace], [str.isalpha], the regex class [\d]). Texts with
      characters beyond U+00FF are outside the model: nothing here
      speaks of them.
    - An event id is the number in the URL, of any size; SQLite holds
      and binds integers of 64 bits only.
    - A validator returns the Python pair [(ok, text)] as [bool * string].
    - [datetime.now()] is the value [clock : datetime] handed to every
      function that reads the wall clock in the source.
    - The [events] table is the list of its rows in rowid order; a JSON
      request body is a finite map from keys to strings. *)

From Stdlib Require Import ZArith NArith Ascii String List Bool Lia Sorted DecimalString.
From stdpp Require Import base tactics option list gmap strings.

Local Open Scope string_scope.
Local Open Scope list_scope.
Local Open Scope Z_scope.

(** ** Characters and Python string methods *)

Module Py.

Definition code (c : ascii) : N := N_of_ascii c.

Definition in_range (lo hi : N) (c : ascii) : bool :=
  ((lo <=? code c) && (code c <=? hi))%N.

(** [str.isspace] on one character: TAB..CR, FS..US, SPACE, NEL, NBSP. *)
Definition isspace (c : ascii) : bool :=
  in_range 9 13 c || in_range 28 32 c || (code c =? 133)%N || (code c =? 160)%N.

(** [str.isalpha] on one character: the letters of Latin-1. *)
Definition isalpha (c : ascii) : bool :=
  in_range 65 90 c || in_range 97 122 c
  || (code c =? 170)%N || (code c =? 181)%N || (code c =? 186)%N
  || in_range 192 214 c || in_range 216 246 c || in_range 248 255 c.

(** The regex class [\d] and the digits [int()] reads, among the
    characters modelled here: 0 to 9. (Beyond U+00FF both also take the
    decimal digits of other scripts; such texts are outside this model.) *)
Definition isdigit (c : ascii) : bool := in_range 48 57 c.

Fixpoint lstrip (l : list ascii) : list ascii :=
  match l with
  | [] => []
  | c :: l' => if isspace c then lstrip l' else l
  end.

Definition rstrip (l : list ascii) : list ascii := rev (lstrip (rev l)).

(** [str.strip()] with no argument. *)
Definition strip (l : list ascii) : list ascii := rstrip (lstrip l).

(** [str.split()] with no argument: [w] is the word being read, reversed. *)
Fixpoint split_from (w l : list ascii) : list (list ascii) :=
  match l with
  | [] => match w with [] => [] | _ => [rev w] end
  | c :: l' =>
      if isspace c
      then match w with [] => split_from [] l' | _ => rev w :: split_from [] l' end
      else split_from (c :: w) l'
  end.

Definition split (l : list ascii) : list (list ascii) := split_from [] l.

(** [str(n)] for a non-negative integer. *)
Definition str_of_nat (n : nat) : string := NilEmpty.string_of_uint (Nat.to_uint n).

End Py.

Definition chars (s : string) : list ascii := list_ascii_of_string s.
Definition text (l : list ascii) : string := string_of_list_ascii l.

(** ** Validators: title and notes *)

Definition msg_title_short : string := "Title must be at least 5 characters long".
Definition msg_title_letter : string := "Title must contain at least one letter".

Definition validate_title (title : string) : bool * string :=
  if (Z.of_nat (length (Py.strip (chars title))) <? 5) then (false, msg_title_short)
  else if negb (existsb Py.isalpha (chars title)) then (false, msg_title_letter)
  else (true, "").

Definition msg_notes_long (word_count : nat) : string :=
  ("Notes must be maximum 23 words (currently " ++ Py.str_of_nat word_count ++ ")")%string.

Definition validate_notes (notes : string) : bool * string :=
  if bool_decide (notes = "") || bool_decide (Py.strip (chars notes) = []) then (true, "")
  else
    let word_count := length (Py.split (Py.strip (chars notes))) in
    if (23 <? Z.of_nat word_count) then (false, msg_notes_long word_count)
    else (true, "").


(** ** Dates: [datetime], [strptime], [strftime] *)

Record datetime := mkDatetime {
  year : Z; month : Z; day : Z;
  hour : Z; minute : Z; second : Z; microsecond : Z
}.

Module Datetime.

Definition MINYEAR : Z := 1.
Definition MAXYEAR : Z := 9999.

Definition is_leap (y : Z) : bool :=
  (y mod 4 =? 0) && (negb (y mod 100 =? 0) || (y mod 400 =? 0)).

Definition days_in_month (y m : Z) : Z :=
  if (m =? 2) then (if is_leap y then 29 else 28)
  else if (m =? 4) || (m =? 6) || (m =? 9) || (m =? 11) then 30
  else 31.

(** The range checks of the [datetime] constructor on the date fields. *)
Definition check_date_fields (y m d : Z) : bool :=
  (MINYEAR <=? y) && (y <=? MAXYEAR) && (1 <=? m) && (m <=? 12)
  && (1 <=? d) && (d <=? days_in_month y m).

(** Tuple comparison, as [datetime.__lt__] does on naive values. *)
Definition fields (t : datetime) : list Z :=
  [year t; month t; day t; hour t; minute t; second t; microsecond t].

Fixpoint lex_ltb (a b : list Z) : bool :=
  match a, b with
  | x :: a', y :: b' => (x <? y) || ((x =? y) && lex_ltb a' b')
  | [], _ :: _ => true
  | _, [] => false
  end.

Definition ltb (a b : datetime) : bool := lex_ltb (fields a) (fields b).

(** [t.replace(hour=0, minute=0, second=0, microsecond=0)]. *)
Definition at_midnight (t : datetime) : datetime :=
  mkDatetime (year t) (month t) (day t) 0 0 0 0.

Definition digit_char (n : Z) : ascii := ascii_of_N (48 + Z.to_N (n mod 10)).

Definition pad2 (n : Z) : list ascii := [digit_char (n / 10); digit_char n].
Definition pad4 (n : Z) : list ascii :=
  [digit_char (n / 1000); digit_char (n / 100); digit_char (n / 10); digit_char n].

(** [t.strftime("%Y-%m-%d")]. The year is printed with four digits, as
    documented; a C library that drops the leading zeros of a year below
    1000 differs only on dates no clock reading of today lets through. *)
Definition strftime_Ymd (t : datetime) : string :=
  text (pad4 (year t) ++ "-"%char :: pad2 (month t) ++ "-"%char :: pad2 (day t)).

End Datetime.

(** *** The regular expression behind [strptime]

    [_strptime] turns the format into a regular expression with one
    named group per directive, matches it against the start of the input
    with a backtracking matcher, and rejects the input when the match
    does not reach its end. *)

Module Re.

Inductive regex : Type :=
| Lit (c : ascii)                    (* one literal character *)
| Range (lo hi : ascii)              (* [lo-hi] *)
| Digit                              (* \d *)
| Seq (r1 r2 : regex)                (* r1 r2 *)
| Alt (r1 r2 : regex)                (* r1|r2 *)
| Group (name : string) (r : regex). (* (?P<name>r) *)

Definition groups : Type := list (string * list ascii).

(** Backtracking matcher: alternatives are tried left to right and the
    first one under which the continuation succeeds wins. *)
Fixpoint run {A : Type} (r : regex) (g : groups) (s : list ascii)
    (k : groups -> list ascii -> option A) : option A :=
  match r with
  | Lit c =>
      match s with
      | x :: s' => if Ascii.eqb x c then k g s' else None
      | [] => None
      end
  | Range lo hi =>
      match s with
      | x :: s' => if Py.in_range (Py.code lo) (Py.code hi) x then k g s' else None
      | [] => None
      end
  | Digit =>
      match s with
      | x :: s' => if Py.isdigit x then k g s' else None
      | [] => None
      end
  | Seq r1 r2 => run r1 g s (fun g1 s1 => run r2 g1 s1 k)
  | Alt r1 r2 =>
      match run r1 g s k with
      | Some a => Some a
      | None => run r2 g s k
      end
  | Group name r' =>
      run r' g s (fun g' s' => k ((name, take (length s - length s') s) :: g') s')
  end.

(** [re.match]: the captured groups and the unmatched rest of the input. *)
Definition match_prefix (r : regex) (s : list ascii) : option (groups * list ascii) :=
  run r [] s (fun g s' => Some (g, s')).

Fixpoint group (name : string) (g : groups) : option (list ascii) :=
  match g with
  | [] => None
  | (n, t) :: g' => if String.eqb n name then Some t else group name g'
  end.

End Re.

Module Strptime.
Import Re.

(** The entries of [TimeRE] for the directives [%d], [%m] and [%Y]. *)
Definition re_d : regex :=
  Group "d"
    (Alt (Seq (Lit "3") (Range "0" "1"))
    (Alt (Seq (Range "1" "2") Digit)
    (Alt (Seq (Lit "0") (Range "1" "9"))
    (Alt (Range "1" "9")
         (Seq (Lit " ") (Range "1" "9")))))).

Definition re_m : regex :=
  Group "m"
    (Alt (Seq (Lit "1") (Range "0" "2"))
    (Alt (Seq (Lit "0") (Range "1" "9"))
         (Range "1" "9"))).

Definition re_Y : regex := Group "Y" (Seq Digit (Seq Digit (Seq Digit Digit))).

(** The pattern compiled from the format ["%d/%m/%Y"]. *)
Definition format_regex : regex :=
  Seq re_d (Seq (Lit "/") (Seq re_m (Seq (Lit "/") re_Y))).

Fixpoint digits_value (acc : Z) (l : list ascii) : option Z :=
  match l with
  | [] => Some acc
  | c :: l' =>
      if Py.isdigit c
      then digits_value (10 * acc + Z.of_N (Py.code c - 48)) l'
      else None
  end.

(** [int(t)] on the text of a matched group: surrounding whitespace is
    dropped and the rest must be a non-empty run of decimal digits. *)
Definition int (t : list ascii) : option Z :=
  match Py.strip t with
  | [] => None
  | l => digits_value 0 l
  end.

(** [datetime.strptime(s, "%d/%m/%Y")]; [None] is [ValueError]. *)
Definition strptime (s : string) : option datetime :=
  match match_prefix format_regex (chars s) with
  | None => None                                  (* does not match format *)
  | Some (g, rest) =>
      match rest with
      | _ :: _ => None                            (* unconverted data remains *)
      | [] =>
          y ← group "Y" g ≫= int;
          m ← group "m" g ≫= int;
          d ← group "d" g ≫= int;
          if Datetime.check_date_fields y m d
          then Some (mkDatetime y m d 0 0 0 0)
          else None                               (* day is out of range *)
      end
  end.

End Strptime.

(** ** Validator: date *)

Definition msg_past_date : string :=
  "Cannot add events to past dates. Please select today or a future date.".
Definition msg_date_format : string := "Date must be in DD/MM/YYYY format".

(** [clock] is what [datetime.now()] returns during the call. *)
Definition validate_date (date_str : string) (clock : datetime) : bool * string :=
  match Strptime.strptime date_str with
  | Some date_obj =>
      let today := Datetime.at_midnight clock in
      if Datetime.ltb date_obj today then (false, msg_past_date)
      else (true, Datetime.strftime_Ymd date_obj)
  | None => (false, msg_date_format)
  end.

(** ** The [events] table *)

Record Row := mkRow {
  id : Z;
  title : string;
  date : string;
  location : string;
  notes : string;
  created_at : string
}.

Global Instance Row_eq_dec : EqDecision Row.
Proof. solve_decision. Defined.

(** The table as SQLite scans it: rows by ascending rowid. *)
Definition Store : Type := list Row.

Definition rowid_order (db : Store) : Prop :=
  StronglySorted (fun r1 r2 => id r1 < id r2) db.

Module Sql.

(** Comparison of two TEXT values under the BINARY collation. *)
Definition text_lt (a b : string) : bool := String.ltb a b.
Definition text_le (a b : string) : bool := String.leb a b.

(** ASCII case folding used by the built-in [LIKE]. *)
Definition tolower (c : ascii) : ascii :=
  if Py.in_range 65 90 c then ascii_of_N (Py.code c + 32) else c.

(** The pattern matcher behind [LIKE]: [%] matches any run of
    characters, [_] any one character, every other character matches
    itself up to ASCII case. *)
Fixpoint like_chars (p s : list ascii) : bool :=
  match p with
  | [] => match s with [] => true | _ :: _ => false end
  | c :: p' =>
      if Ascii.eqb c "%" then
        (fix any (s : list ascii) : bool :=
           like_chars p' s || match s with [] => false | _ :: s' => any s' end) s
      else
        match s with
        | [] => false
        | x :: s' =>
            (Ascii.eqb c "_" || Ascii.eqb (tolower c) (tolower x))
            && like_chars p' s'
        end
  end.

(** A text as the matcher reads it: up to the first U+0000. *)
Fixpoint c_string (l : list ascii) : list ascii :=
  match l with
  | [] => []
  | c :: l' => if Ascii.eqb c "000" then [] else c :: c_string l'
  end.

(** [s LIKE p]: both texts are read as C strings. *)
Definition like (p s : list ascii) : bool := like_chars (c_string p) (c_string s).

(** The length in bytes of a text bound as UTF-8. *)
Definition utf8_length (l : list ascii) : Z :=
  foldr (fun c n => (if (Py.code c <? 128)%N then 1 else 2) + n) 0 l.

(** SQLITE_LIMIT_LIKE_PATTERN_LENGTH: a longer pattern makes every
    evaluation of [LIKE] fail with "LIKE or GLOB pattern too complex". *)
Definition LIKE_PATTERN_LIMIT : Z := 50000.

Definition like_pattern_ok (pattern : string) : bool :=
  utf8_length (chars pattern) <=? LIKE_PATTERN_LIMIT.

(** An integer that can be bound to a statement: one of 64 bits. Binding
    any other raises [OverflowError] before the statement runs. *)
Definition INT64_MAX : Z := 9223372036854775807.

Definition bindable (n : Z) : bool := (- INT64_MAX - 1 <=? n) && (n <=? INT64_MAX).

(** [ORDER BY date] over rows arriving in scan order: the sorter keeps
    rows with equal keys in the order in which they arrived. *)
Fixpoint insert_by_date (r : Row) (sorted : list Row) : list Row :=
  match sorted with
  | [] => [r]
  | r' :: rest =>
      if text_le (date r) (date r') then r :: sorted
      else r' :: insert_by_date r rest
  end.

Definition order_by_date (rows : list Row) : list Row :=
  foldr insert_by_date [] rows.

(** [DELETE FROM events WHERE date < ?]. *)
Definition delete_where_date_lt (cutoff : string) (db : Store) : Store :=
  List.filter (fun r => negb (text_lt (date r) cutoff)) db.

(** [SELECT * FROM events WHERE date LIKE ? ORDER BY date]. [None] is
    the error of a pattern over the limit, raised as soon as [LIKE] is
    evaluated on a row. *)
Definition select_where_date_like (pattern : string) (db : Store)
    : option (list Row) :=
  match db with
  | _ :: _ =>
      if like_pattern_ok pattern
      then Some (order_by_date
                   (List.filter (fun r => like (chars pattern) (chars (date r))) db))
      else None
  | [] => Some []
  end.

(** [SELECT * FROM events ORDER BY date]. *)
Definition select_all (db : Store) : list Row := order_by_date db.

(** [SELECT * FROM events WHERE id = ?] followed by [fetchone()]: the
    row stored under the id. A rowid has 64 bits, so a number outside
    that range is the id of no row (the handlers never get as far as
    running the statement with one: binding it raises). *)
Definition select_by_id (event_id : Z) (db : Store) : option Row :=
  if bindable event_id
  then List.find (fun r => bool_decide (id r = event_id)) db
  else None.

End Sql.

(** ** Request handlers *)

Inductive Response : Type :=
| JsonRow (r : Row)                       (* 200, one event *)
| JsonRows (rs : list Row)                (* 200, a list of events *)
| JsonError (status : Z) (error : string)  (* {"error": ...}, status *)
| Uncaught (exception : string).          (* no handler catches it: Flask's 500 *)

Definition msg_overflow : string :=
  "Python int too large to convert to SQLite INTEGER".
Definition msg_like_too_complex : string := "LIKE or GLOB pattern too complex".

Definition cleanup_past_events (clock : datetime) (db : Store) : Store :=
  let today := Datetime.strftime_Ymd clock in
  Sql.delete_where_date_lt today db.

(** [month] is [request.args.get("month")]. The cleanup is committed
    before the listing query runs; an error of that query is not caught. *)
Definition get_events (month : option string) (clock : datetime) (db : Store)
    : Store * Response :=
  let db := cleanup_past_events clock db in
  let rows :=
    match month with
    | Some m =>
        if bool_decide (m = "") then Some (Sql.select_all db)
        else Sql.select_where_date_like (m ++ "%")%string db
    | None => Some (Sql.select_all db)
    end in
  match rows with
  | Some rows => (db, JsonRows rows)
  | None => (db, Uncaught msg_like_too_complex)
  end.

(** The columns an update may assign, in the order the handler visits them. *)
Definition updatable : list string := ["title"; "date"; "location"; "notes"].

Definition set_column (field value : string) (r : Row) : Row :=
  if String.eqb field "title" then
    mkRow (id r) value (date r) (location r) (notes r) (created_at r)
  else if String.eqb field "date" then
    mkRow (id r) (title r) value (location r) (notes r) (created_at r)
  else if String.eqb field "location" then
    mkRow (id r) (title r) (date r) value (notes r) (created_at r)
  else if String.eqb field "notes" then
    mkRow (id r) (title r) (date r) (location r) value (created_at r)
  else r.

(** The row after [SET f1 = ?, f2 = ?, ...]. *)
Definition assign (r : Row) (assignments : list (string * string)) : Row :=
  foldl (fun r fv => set_column fv.1 fv.2 r) r assignments.

(** [UPDATE events SET f1 = ?, ... WHERE id = ?]. *)
Definition sql_update (assignments : list (string * string)) (event_id : Z)
    (db : Store) : Store :=
  map (fun r => if bool_decide (id r = event_id) then assign r assignments else r) db.

(** The assignments the handler collects from the request body: one for
    each updatable column that is a key of the body. *)
Definition assignments_of (data : gmap string string) : list (string * string) :=
  omap (fun field => (fun v => (field, v)) <$> data !! field) updatable.

(** The three validation steps of [update_event]. Each returns the
    error text of a failed check; the date step also rewrites the date
    of the request body to the stored form. *)
Definition check_title (data : gmap string string) : option string :=
  match data !! "title" with
  | Some t =>
      let '(is_valid, error_msg) := validate_title t in
      if is_valid then None else Some error_msg
  | None => None
  end.

Definition check_date (data : gmap string string) (clock : datetime)
    : string + gmap string string :=
  match data !! "date" with
  | Some d =>
      let '(is_valid, date_formatted) := validate_date d clock in
      if is_valid then inr (<["date" := date_formatted]> data)
      else inl date_formatted
  | None => inr data
  end.

Definition check_notes (data : gmap string string) : option string :=
  match data !! "notes" with
  | Some n =>
      if bool_decide (n = "") then None
      else
        let '(is_valid, error_msg) := validate_notes n in
        if is_valid then None else Some error_msg
  | None => None
  end.

Definition validate_update (data : gmap string string) (clock : datetime)
    : Response + gmap string string :=
  match check_title data with
  | Some e => inl (JsonError 400 e)
  | None =>
      match check_date data clock with
      | inl e => inl (JsonError 400 e)
      | inr data =>
          match check_notes data with
          | Some e => inl (JsonError 400 e)
          | None => inr data
          end
      end
  end.

Definition update_event (event_id : Z) (data : gmap string string)
    (clock : datetime) (db : Store) : Store * Response :=
  match validate_update data clock with
  | inl resp => (db, resp)
  | inr data =>
      let assignments := assignments_of data in
      match assignments with
      | [] => (db, JsonError 400 "No fields to update")
      | _ =>
          if negb (Sql.bindable event_id)
          then (db, JsonError 500 msg_overflow)   (* OverflowError, caught *)
          else
            let db := sql_update assignments event_id db in
            match Sql.select_by_id event_id db with
            | Some row => (db, JsonRow row)
            | None => (db, JsonError 404 "Event not found")
            end
      end
  end.

(** ** The specification's wording, for comparison with the code *)

Module Spec.

(** "Trimmed": [t] is what is left of [l] once the whitespace at both
    ends is removed. *)
Definition trimmed (l t : list ascii) : Prop :=
  ∃ a b, l = a ++ t ++ b
    ∧ forallb Py.isspace a = true ∧ forallb Py.isspace b = true
    ∧ (∀ c, head t = Some c → Py.isspace c = false)
    ∧ (∀ c, last t = Some c → Py.isspace c = false).

Definition push_front (w : list ascii) (fs : list (list ascii)) : list (list ascii) :=
  match fs with
  | f :: fs' => (w ++ f) :: fs'
  | [] => [w]
  end.

(** The text cut at every single whitespace character; two adjacent
    whitespace characters enclose an empty field. *)
Fixpoint cut_at_whitespace (l : list ascii) : list (list ascii) :=
  match l with
  | [] => [[]]
  | c :: l' =>
      if Py.isspace c then [] :: cut_at_whitespace l'
      else push_front [c] (cut_at_whitespace l')
  end.

Definition nonempty (f : list ascii) : bool :=
  match f with [] => false | _ :: _ => true end.

(** "Splits on any run of whitespace, discarding empty tokens." *)
Definition tokens (l : list ascii) : list (list ascii) :=
  List.filter nonempty (cut_at_whitespace l).

Definition word_count (notes : string) : nat := length (tokens (chars notes)).

End Spec.

(** ** What a pattern matches

    [Re.matches r g s g' s']: the pattern [r] can consume a prefix of [s]
    leaving [s'], extending the captured groups [g] to [g']. The
    backtracking matcher [Re.run] explores exactly these matches. *)

Fixpoint re_matches (r : Re.regex) (g : Re.groups) (s : list ascii)
    (g' : Re.groups) (s' : list ascii) : Prop :=
  match r with
  | Re.Lit c => s = c :: s' ∧ g' = g
  | Re.Range lo hi =>
      ∃ x, s = x :: s' ∧ Py.in_range (Py.code lo) (Py.code hi) x = true ∧ g' = g
  | Re.Digit => ∃ x, s = x :: s' ∧ Py.isdigit x = true ∧ g' = g
  | Re.Seq r1 r2 => ∃ g1 s1, re_matches r1 g s g1 s1 ∧ re_matches r2 g1 s1 g' s'
  | Re.Alt r1 r2 => re_matches r1 g s g' s' ∨ re_matches r2 g s g' s'
  | Re.Group name r' =>
      ∃ g1, re_matches r' g s g1 s'
            ∧ g' = (name, take (length s - length s') s) :: g1
  end.

Module DateText.

Definition digit_val (c : ascii) : Z := Z.of_N (Py.code c - 48).

Definition one_digit (t : list ascii) (v : Z) : Prop :=
  ∃ a, t = [a] ∧ Py.isdigit a = true ∧ v = digit_val a.

Definition two_digits (t : list ascii) (v : Z) : Prop :=
  ∃ a b, t = [a; b] ∧ Py.isdigit a = true ∧ Py.isdigit b = true
         ∧ v = 10 * digit_val a + digit_val b.

Definition four_digits (t : list ascii) (v : Z) : Prop :=
  ∃ a b c d, t = [a; b; c; d]
    ∧ Py.isdigit a = true ∧ Py.isdigit b = true
    ∧ Py.isdigit c = true ∧ Py.isdigit d = true
    ∧ v = 1000 * digit_val a + 100 * digit_val b + 10 * digit_val c + digit_val d.

(** Texts the [%d] group can hold, with the day they denote. *)
Definition day_text (t : list ascii) (v : Z) : Prop :=
  (two_digits t v ∨ one_digit t v ∨ ∃ t', t = " "%char :: t' ∧ one_digit t' v)
  ∧ 1 ≤ v ≤ 31.

(** Texts the [%m] group can hold, with the month they denote. *)
Definition month_text (t : list ascii) (v : Z) : Prop :=
  (two_digits t v ∨ one_digit t v) ∧ 1 ≤ v ≤ 12.

(** A real calendar date of the years 0001 to 9999. *)
Definition real_date (y m d : Z) : Prop :=
  1 ≤ y ≤ 9999 ∧ 1 ≤ m ≤ 12 ∧ 1 ≤ d ≤ Datetime.days_in_month y m.

(** The specification's wording: day/month/year with exactly a two-digit
    day, exactly a two-digit month and exactly a four-digit year. *)
Definition strict (s : string) (y m d : Z) : Prop :=
  ∃ dt mt yt, chars s = dt ++ "/"%char :: mt ++ "/"%char :: yt
    ∧ two_digits dt d ∧ two_digits mt m ∧ four_digits yt y
    ∧ real_date y m d.

(** What the code takes: the day may also be written with one digit or
    with a space and one digit, the month also with one digit. *)
Definition lenient (s : string) (y m d : Z) : Prop :=
  ∃ dt mt yt, chars s = dt ++ "/"%char :: mt ++ "/"%char :: yt
    ∧ (two_digits dt d ∨ one_digit dt d ∨ ∃ t, dt = " "%char :: t ∧ one_digit t d)
    ∧ (two_digits mt m ∨ one_digit mt m)
    ∧ four_digits yt y
    ∧ real_date y m d.

End DateText.

(** Calendar days compared at day granularity. *)
Definition day_before (y m d : Z) (clock : datetime) : Prop :=
  y < year clock
  ∨ (y = year clock ∧ (m < month clock ∨ (m = month clock ∧ d < day clock))).

Definition same_day (c1 c2 : datetime) : Prop :=
  year c1 = year c2 ∧ month c1 = month c2 ∧ day c1 = day c2.

(** The canonical form [YYYY-MM-DD] of a date. *)
Definition canonical (y m d : Z) : string :=
  Datetime.strftime_Ymd (mkDatetime y m d 0 0 0 0).

Definition is_canonical (out : string) (y m d : Z) : Prop :=
  ∃ yt mt dt, chars out = yt ++ "-"%char :: mt ++ "-"%char :: dt
    ∧ DateText.four_digits yt y ∧ DateText.two_digits mt m
    ∧ DateText.two_digits dt d.

(** ** The listing, in the specification's words *)

(** A pattern character that [LIKE] treats literally and without case
    folding: neither a wildcard nor an ASCII letter, nor the U+0000 that
    ends a pattern. *)
Definition like_literal (c : ascii) : bool :=
  negb (Ascii.eqb c "%") && negb (Ascii.eqb c "_")
  && negb (Py.in_range 65 90 c) && negb (Py.in_range 97 122 c)
  && negb (Ascii.eqb c "000").

(** A filter of literal characters whose pattern is within the limit. *)
Definition plain_filter (m : string) : Prop :=
  forallb like_literal (chars m) = true
  ∧ Sql.like_pattern_ok (m ++ "%")%string = true.

(** "Whose canonical date starts with that prefix"; no filter keeps all. *)
Definition in_month (month : option string) (r : Row) : bool :=
  match month with
  | Some m => String.prefix m (date r)
  | None => true
  end.

(** "Ascending by canonical date, ties broken by id ascending." *)
Definition listed_before (r1 r2 : Row) : Prop :=
  Sql.text_lt (date r1) (date r2) = true ∨ (date r1 = date r2 ∧ id r1 < id r2).

(** A past event: its stored date is strictly before [today]. *)
Definition is_past (today : string) (r : Row) : Prop :=
  Sql.text_lt (date r) today = true.

(** ** The update, in the specification's words *)

(** The value of a named column of a row. *)
Definition column (field : string) (r : Row) : string :=
  if String.eqb field "title" then title r
  else if String.eqb field "date" then date r
  else if String.eqb field "location" then location r
  else if String.eqb field "notes" then notes r
  else "".

(** The request body cut down to the keys of the allow-list. *)
Definition allowed_part (data : gmap string string) : gmap string string :=
  filter (λ kv, kv.1 ∈ updatable) data.

(** Two request bodies that say the same about every updatable column. *)
Definition agree (data1 data2 : gmap string string) : Prop :=
  ∀ f, f ∈ updatable → data1 !! f = data2 !! f.

Definition has_updatable (data : gmap string string) : bool :=
  existsb (λ f, bool_decide (is_Some (data !! f))) updatable.

(** A field of the request body that is present and fails its validator. *)
Definition invalid_field (data : gmap string string) (clock : datetime) : Prop :=
  (∃ t, data !! "title" = Some t ∧ (validate_title t).1 = false)
  ∨ (∃ d, data !! "date" = Some d ∧ (validate_date d clock).1 = false)
  ∨ (∃ n, data !! "notes" = Some n ∧ (validate_notes n).1 = false).

Definition valid_fields (data : gmap string string) (clock : datetime) : Prop :=
  (∀ t, data !! "title" = Some t → (validate_title t).1 = true)
  ∧ (∀ d, data !! "date" = Some d → (validate_date d clock).1 = true)
  ∧ (∀ n, data !! "notes" = Some n → (validate_notes n).1 = true).

Definition twenty_four_words : string :=
  "word word word word word word word word word word word word word word word word word word word word word word word word ".

(** ** The remaining handlers: create, read, delete, manual cleanup *)

(** The database file: the [events] table and the [sqlite_sequence]
    entry that [AUTOINCREMENT] keeps for it (the largest rowid ever
    handed out, 0 before the first insert). *)
Record Database := mkDatabase {
  rows : Store;
  seq : Z
}.

Definition MAX_ROWID : Z := 9223372036854775807.

Definition max_rowid (db : Store) : Z := foldr (fun r m => Z.max (id r) m) 0 db.

(** [INSERT INTO events (title, date, location, notes) VALUES (?, ?, ?, ?)]
    and [cursor.lastrowid]. The new rowid is one above the largest ever
    used; [created_at] takes [CURRENT_TIMESTAMP], here [timestamp].
    [None] is the error raised once the rowids are used up. *)
Definition next_rowid (db : Database) : Z :=
  Z.max (seq db) (max_rowid (rows db)) + 1.

Definition sql_insert (title date location notes timestamp : string)
    (db : Database) : option (Database * Z) :=
  let new_id := next_rowid db in
  if MAX_ROWID <? new_id then None
  else Some (mkDatabase
               (rows db ++ [mkRow new_id title date location notes timestamp])
               new_id,
             new_id).

(** [DELETE FROM events WHERE id = ?]. *)
Definition sql_delete (event_id : Z) (db : Store) : Store :=
  List.filter (fun r => negb (bool_decide (id r = event_id))) db.

(** [data.get(key, "")]. *)
Definition get_or_empty (data : gmap string string) (key : string) : string :=
  default "" (data !! key).

(** POST /api/events. [timestamp] is the value of [CURRENT_TIMESTAMP]
    at the insert. A status 500 is the handler's [except Exception]. *)
Definition add_event (data : gmap string string) (clock : datetime)
    (timestamp : string) (db : Database) : Database * Response :=
  if bool_decide (data = ∅) then (db, JsonError 400 "No data provided")
  else
    let '(is_valid, error_msg) := validate_title (get_or_empty data "title") in
    if negb is_valid then (db, JsonError 400 error_msg)
    else
      let '(is_valid, date_formatted) :=
        validate_date (get_or_empty data "date") clock in
      if negb is_valid then (db, JsonError 400 date_formatted)
      else
        match check_notes data with
        | Some error_msg => (db, JsonError 400 error_msg)
        | None =>
            match data !! "title" with
            | None => (db, JsonError 500 "'title'")          (* KeyError *)
            | Some t =>
                match sql_insert t date_formatted (get_or_empty data "location")
                        (get_or_empty data "notes") timestamp db with
                | None => (db, JsonError 500 "database or disk is full")
                | Some (db', event_id) =>
                    match Sql.select_by_id event_id (rows db') with
                    | Some row => (db', JsonRow row)
                    | None =>
                        (db', JsonError 500 "'NoneType' object is not iterable")
                    end
                end
            end
        end.

(** GET /api/events/<id>. [event_id] is the number in the URL, of any
    size; one that cannot be bound raises, and nothing here catches it. *)
Definition get_event (event_id : Z) (db : Store) : Response :=
  if negb (Sql.bindable event_id) then Uncaught msg_overflow
  else
    match Sql.select_by_id event_id db with
    | Some row => JsonRow row
    | None => JsonError 404 "Event not found"
    end.

(** DELETE /api/events/<id>. Here the [OverflowError] is caught. *)
Definition delete_event (event_id : Z) (db : Store) : Store * Response :=
  if negb (Sql.bindable event_id) then (db, JsonError 500 msg_overflow)
  else
    match Sql.select_by_id event_id db with
    | None => (db, JsonError 404 "Event not found")
    | Some row => (sql_delete event_id db, JsonRow row)
    end.

(** POST /api/events/cleanup: the table afterwards and the message sent. *)
Definition cleanup (clock : datetime) (db : Store) : Store * string :=
  (cleanup_past_events clock db, "Past events cleaned up").

(** *** The routes that touch the table *)

Inductive Request : Type :=
| GetEvents (month : option string)
| GetEvent (event_id : Z)
| PostEvent (data : gmap string string) (timestamp : string)
| PutEvent (event_id : Z) (data : gmap string string)
| DeleteEvent (event_id : Z)
| PostCleanup.

Inductive Reply : Type :=
| ReplyJson (r : Response)
| ReplyMessage (message : string).

(** One request served at the clock reading [clock]. *)
Definition handle (req : Request) (clock : datetime) (db : Database)
    : Database * Reply :=
  match req with
  | GetEvents month =>
      let '(t, resp) := get_events month clock (rows db) in
      (mkDatabase t (seq db), ReplyJson resp)
  | GetEvent event_id => (db, ReplyJson (get_event event_id (rows db)))
  | PostEvent data timestamp =>
      let '(db', resp) := add_event data clock timestamp db in
      (db', ReplyJson resp)
  | PutEvent event_id data =>
      let '(t, resp) := update_event event_id data clock (rows db) in
      (mkDatabase t (seq db), ReplyJson resp)
  | DeleteEvent event_id =>
      let '(t, resp) := delete_event event_id (rows db) in
      (mkDatabase t (seq db), ReplyJson resp)
  | PostCleanup =>
      let '(t, message) := cleanup clock (rows db) in
      (mkDatabase t (seq db), ReplyMessage message)
  end.

(** A run of the server: the requests in order, each with the clock
    reading at which it is served. *)
Definition serve (reqs : list (Request * datetime)) (db : Database) : Database :=
  foldl (fun db rc => (handle rc.1 rc.2 db).1) db reqs.

(** The database created by [init_db] on a fresh file. *)
Definition empty_db : Database := mkDatabase [] 0.

(** *** What the table is meant to hold *)

(** A stored event: its title and notes pass their validators and its
    date is the canonical form of a real calendar date. *)
Definition stored_ok (r : Row) : Prop :=
  (validate_title (title r)).1 = true
  ∧ (∃ y m d, DateText.real_date y m d ∧ date r = canonical y m d)
  ∧ (validate_notes (notes r)).1 = true.

(** A well-formed database: rows in strictly ascending id order, every
    id positive and at most the recorded sequence value, every row a
    valid stored event. *)
Definition db_ok (db : Database) : Prop :=
  rowid_order (rows db)
  ∧ 0 ≤ seq db
  ∧ Forall (fun r => 0 < id r ≤ seq db) (rows db)
  ∧ Forall stored_ok (rows db).

(** A request body from which an event can be created: title and date
    are present and pass their validators, the notes pass theirs, and a
    rowid is left. *)
Definition creatable (data : gmap string string) (clock : datetime)
    (db : Database) : Prop :=
  (∃ t, data !! "title" = Some t ∧ (validate_title t).1 = true)
  ∧ (∃ d, data !! "date" = Some d ∧ (validate_date d clock).1 = true)
  ∧ (∀ n, data !! "notes" = Some n → (validate_notes n).1 = true)
  ∧ next_rowid db ≤ MAX_ROWID.

(** The row such a body creates. *)
Definition created_row (data : gmap string string) (clock : datetime)
    (timestamp : string) (db : Database) : Row :=
  mkRow (next_rowid db)
        (get_or_empty data "title")
        (validate_date (get_or_empty data "date") clock).2
        (get_or_empty data "location")
        (get_or_empty data "notes")
        timestamp.

(** The body of an update after validation: the date, when given, in
    its stored form. *)
Definition stored_body (data : gmap string string) (clock : datetime)
    : gmap string string :=
  match data !! "date" with
  | Some d => <["date" := (validate_date d clock).2]> data
  | None => data
  end.

(** The row an update leaves in place of [r]: each column named in the
    validated body [data] takes the value given there. *)
Definition updated_row (data : gmap string string) (r : Row) : Row :=
  mkRow (id r)
        (default (title r) (data !! "title"))
        (default (date r) (data !! "date"))
        (default (location r) (data !! "location"))
        (default (notes r) (data !! "notes"))
        (created_at r).

(** Calendar order of two clock readings, by day. *)
Definition day_le (c1 c2 : datetime) : Prop :=
  ¬ day_before (year c2) (month c2) (day c2) c1.

Definition real_clock (c : datetime) : Prop :=
  DateText.real_date (year c) (month c) (day c).

(** Rows in ascending order of their stored dates. *)
Definition date_order (l : list Row) : Prop :=
  StronglySorted (fun a b => Sql.text_le (date a) (date b) = true) l.

(** The rows a listing returns. *)
Definition listed (resp : Store * Response) : list Row :=
  match resp.2 with
  | JsonRows rs => rs
  | _ => []
  end.

(** The [WHERE date LIKE ?] test of the filtered listing. *)
Definition like_month (m : string) (r : Row) : bool :=
  Sql.like (chars (m ++ "%")%string) (chars (date r)).

(** * Properties *)

(** ** Whitespace trimming and word splitting *)

Section Strings.

Implicit Types (l t a b w : list ascii) (c : ascii).

Lemma lstrip_app_spaces a l :
  forallb Py.isspace a = true → Py.lstrip (a ++ l) = Py.lstrip l.
Proof.
  induction a as [|c a IH]; simpl; [done|].
  intros [Hc Ha]%andb_true_iff. rewrite Hc. auto.
Qed.

Lemma lstrip_spaces a : forallb Py.isspace a = true → Py.lstrip a = [].
Proof.
  intros Ha. rewrite <- (app_nil_r a). by rewrite lstrip_app_spaces.
Qed.

Lemma lstrip_decompose l :
  ∃ a, l = a ++ Py.lstrip l ∧ forallb Py.isspace a = true
       ∧ ∀ c, head (Py.lstrip l) = Some c → Py.isspace c = false.
Proof.
  induction l as [|x l (a & Hl & Ha & Hh)]; simpl.
  - exists []. by repeat split.
  - destruct (Py.isspace x) eqn:Hx.
    + exists (x :: a). simpl. rewrite Hx, Ha. repeat split; [by f_equal|done].
    + exists []. repeat split. simpl. by intros ? [= <-].
Qed.

Lemma head_rev_last l : head (rev l) = last l.
Proof.
  induction l as [|x l IH] using rev_ind; [done|].
  by rewrite rev_unit, last_snoc.
Qed.

Lemma forallb_rev (f : ascii → bool) l : forallb f (rev l) = forallb f l.
Proof.
  induction l as [|x l IH]; [done|]. simpl.
  rewrite forallb_app, IH. simpl. rewrite andb_true_r. apply andb_comm.
Qed.

Lemma rstrip_decompose l :
  ∃ b, l = Py.rstrip l ++ b ∧ forallb Py.isspace b = true
       ∧ ∀ c, last (Py.rstrip l) = Some c → Py.isspace c = false.
Proof.
  unfold Py.rstrip. destruct (lstrip_decompose (rev l)) as (a & Hl & Ha & Hh).
  exists (rev a). repeat split.
  - rewrite <- rev_app_distr, <- Hl. by rewrite rev_involutive.
  - by rewrite forallb_rev.
  - intros c. rewrite <- head_rev_last, rev_involutive. apply Hh.
Qed.

(** [strip] returns the trimmed text. *)
Lemma strip_trimmed l : Spec.trimmed l (Py.strip l).
Proof.
  unfold Py.strip.
  destruct (lstrip_decompose l) as (a & Hl & Ha & Hh).
  destruct (rstrip_decompose (Py.lstrip l)) as (b & Hr & Hb & Ht).
  exists a, b. repeat split; try done.
  - by rewrite <- Hr.
  - intros c Hc. apply Hh. rewrite Hr.
    destruct (Py.rstrip (Py.lstrip l)); [done|]. by simpl in *.
Qed.

(** The trimmed text is unique, so it is the one [strip] returns. *)
Lemma trimmed_strip l t : Spec.trimmed l t → t = Py.strip l.
Proof.
  intros (a & b & -> & Ha & Hb & Hh & Ht). unfold Py.strip.
  rewrite lstrip_app_spaces by done.
  destruct t as [|c t].
  - simpl. rewrite lstrip_spaces by done. done.
  - assert (Py.lstrip ((c :: t) ++ b) = (c :: t) ++ b) as ->.
    { simpl. by rewrite (Hh c). }
    unfold Py.rstrip. rewrite rev_app_distr, lstrip_app_spaces
      by (by rewrite forallb_rev).
    destruct (rev (c :: t)) as [|x r] eqn:Hrev.
    { apply (f_equal (@rev ascii)) in Hrev. by rewrite rev_involutive in Hrev. }
    assert (Py.isspace x = false) as Hx.
    { apply Ht. by rewrite <- head_rev_last, Hrev. }
    simpl. rewrite Hx. simpl. rewrite <- (rev_involutive (c :: t)), Hrev. done.
Qed.

Lemma split_from_spaces w b :
  forallb Py.isspace b = true → Py.split_from w b = Py.split_from w [].
Proof.
  revert w. induction b as [|c b IH]; intros w; simpl; [done|].
  intros [Hc Hb]%andb_true_iff. rewrite Hc.
  destruct w; rewrite (IH [] Hb); done.
Qed.

Lemma split_from_app_spaces w l b :
  forallb Py.isspace b = true → Py.split_from w (l ++ b) = Py.split_from w l.
Proof.
  intros Hb. revert w. induction l as [|c l IH]; intros w; simpl.
  - by apply split_from_spaces.
  - destruct (Py.isspace c); [destruct w|]; by rewrite IH.
Qed.

Lemma split_spaces_app a l :
  forallb Py.isspace a = true → Py.split (a ++ l) = Py.split l.
Proof.
  unfold Py.split. induction a as [|c a IH]; simpl; [done|].
  intros [Hc Ha]%andb_true_iff. rewrite Hc. auto.
Qed.

(** Trimming first does not change the words. *)
Lemma split_strip l : Py.split (Py.strip l) = Py.split l.
Proof.
  destruct (strip_trimmed l) as (a & b & Hl & Ha & Hb & _).
  rewrite Hl at 2. rewrite split_spaces_app by done.
  unfold Py.split. by rewrite split_from_app_spaces.
Qed.

Lemma cut_at_whitespace_cons l : ∃ f fs, Spec.cut_at_whitespace l = f :: fs.
Proof.
  destruct l as [|c l]; simpl; [by eauto|].
  destruct (Py.isspace c); [by eauto|].
  destruct (Spec.cut_at_whitespace l); simpl; eauto.
Qed.

(** The words [split] returns are the non-empty fields between whitespace. *)
Lemma split_from_tokens w l :
  Py.split_from w l
  = List.filter Spec.nonempty (Spec.push_front (rev w) (Spec.cut_at_whitespace l)).
Proof.
  revert w. induction l as [|c l IH]; intros w; simpl.
  - rewrite app_nil_r. destruct w as [|x w]; [done|].
    simpl. destruct (rev w ++ [x]) eqn:E; [by destruct (rev w)|done].
  - destruct (Py.isspace c) eqn:Hc; simpl.
    + rewrite app_nil_r. specialize (IH []). simpl in IH.
      destruct (cut_at_whitespace_cons l) as (f & fs & Hf).
      rewrite Hf in IH. simpl in IH. rewrite Hf.
      destruct w as [|x w]; simpl; [by rewrite IH|].
      rewrite IH. destruct (rev w ++ [x]) eqn:E; [by destruct (rev w)|done].
    + rewrite IH. destruct (cut_at_whitespace_cons l) as (f & fs & ->).
      simpl. by rewrite <- app_assoc.
Qed.

Lemma split_tokens l : Py.split l = Spec.tokens l.
Proof.
  unfold Py.split, Spec.tokens. rewrite split_from_tokens. simpl.
  by destruct (cut_at_whitespace_cons l) as (f & fs & ->).
Qed.

Lemma tokens_spaces l : forallb Py.isspace l = true → Spec.tokens l = [].
Proof.
  intros Hl. rewrite <- split_tokens. unfold Py.split.
  by rewrite split_from_spaces.
Qed.

Lemma chars_empty s : chars s = [] → s = "".
Proof. by destruct s. Qed.

End Strings.

(** ** Title and notes validators *)

Lemma no_letter_existsb (l : list ascii) :
  existsb Py.isalpha l = false ↔ ∀ c, c ∈ l → Py.isalpha c = false.
Proof.
  induction l as [|x l IH]; simpl.
  - split; [|done]. intros _ c Hc. inversion Hc.
  - rewrite orb_false_iff, IH. split.
    + intros [Hx Hl] c [->|Hc]%elem_of_cons; auto.
    + intros H. split; [apply H; left|intros c Hc; apply H; by right].
Qed.

(** C8. [validate_title] fails exactly when the title, trimmed of
    surrounding whitespace, has fewer than 5 characters or the title
    contains no alphabetic character; every other title is accepted
    with the result [(True, "")]. *)
Theorem validate_title_fails_iff (title : string) (t : list ascii) :
  Spec.trimmed (chars title) t →
  ((∃ msg, validate_title title = (false, msg))
     ↔ (length t < 5)%nat ∨ (∀ c, c ∈ chars title → Py.isalpha c = false))
  ∧ (¬ ((length t < 5)%nat ∨ (∀ c, c ∈ chars title → Py.isalpha c = false))
     ↔ validate_title title = (true, "")).
Proof.
  intros ->%trimmed_strip. rewrite <- no_letter_existsb.
  set (P := (length (Py.strip (chars title)) < 5)%nat
            ∨ existsb Py.isalpha (chars title) = false).
  assert ((P ∧ ∃ msg, validate_title title = (false, msg))
          ∨ (¬ P ∧ validate_title title = (true, ""))) as Hcases.
  { unfold validate_title, P.
    destruct (Z.ltb_spec (Z.of_nat (length (Py.strip (chars title)))) 5) as [Hlen|Hlen].
    - left. split; [left; lia|eauto].
    - destruct (existsb Py.isalpha (chars title)); simpl.
      + right. split; [|done]. intros [?|?]; [lia|done].
      + left. split; [by right|eauto]. }
  destruct Hcases as [[HP [msg Hv]]|[HP Hv]]; rewrite Hv.
  - split; split; try done; eauto.
  - split; split; try done. intros [? [=]].
Qed.

Lemma validate_title_fails_iff_witness :
  (∃ msg, validate_title "  ab1  " = (false, msg))
  ∧ validate_title "Valid Title" = (true, "").
Proof.
  split.
  - apply (validate_title_fails_iff "  ab1  " (chars "ab1")).
    + exists (chars "  "), (chars "  "). repeat split; try reflexivity.
      all: intros c [= <-]; reflexivity.
    + left. simpl. lia.
  - apply (validate_title_fails_iff "Valid Title" (chars "Valid Title")).
    + exists [], []. repeat split; try reflexivity.
      all: intros c [= <-]; reflexivity.
    + intros [H|H]; [simpl in H; lia|].
      assert (Py.isalpha "V" = false) as Hv by (apply H; apply (list_elem_of_here "V"%char)).
      discriminate Hv.
Defined.

(** C7. [validate_notes] succeeds exactly when the notes hold at most 23
    non-empty tokens once cut at whitespace; notes that are empty or all
    whitespace are always accepted, and a rejection reports the count. *)
Theorem validate_notes_succeeds_iff (notes : string) :
  (validate_notes notes = (true, "") ↔ (Spec.word_count notes ≤ 23)%nat)
  ∧ (forallb Py.isspace (chars notes) = true → validate_notes notes = (true, ""))
  ∧ (¬ (Spec.word_count notes ≤ 23)%nat
     ↔ validate_notes notes = (false, msg_notes_long (Spec.word_count notes))).
Proof.
  unfold validate_notes, Spec.word_count.
  rewrite split_strip, split_tokens.
  assert (forallb Py.isspace (chars notes) = true →
          bool_decide (notes = "") || bool_decide (Py.strip (chars notes) = []) = true)
    as Hblank.
  { intros Hsp. apply orb_true_iff. right. apply bool_decide_eq_true.
    symmetry. apply trimmed_strip. exists (chars notes), [].
    rewrite app_nil_r. by repeat split. }
  destruct (bool_decide (notes = "") || bool_decide (Py.strip (chars notes) = []))
    eqn:Hempty.
  - assert (Spec.tokens (chars notes) = []) as ->.
    { apply orb_true_iff in Hempty as [->%bool_decide_eq_true|He%bool_decide_eq_true];
        [done|].
      rewrite <- split_tokens, <- split_strip. by rewrite He. }
    simpl. split; [|split]; [split; [lia|done] |done|split; [lia|done]].
  - split; [|split].
    + destruct (Z.ltb_spec 23 (Z.of_nat (length (Spec.tokens (chars notes)))));
        split; try done; lia.
    + intros Hsp. specialize (Hblank Hsp). congruence.
    + destruct (Z.ltb_spec 23 (Z.of_nat (length (Spec.tokens (chars notes)))));
        split; try done; lia.
Qed.

Lemma validate_notes_succeeds_iff_witness :
  validate_notes "   " = (true, "")
  ∧ validate_notes "call the venue and confirm the room" = (true, "").
Proof.
  split.
  - apply (proj1 (proj2 (validate_notes_succeeds_iff "   "))). reflexivity.
  - apply (proj2 (proj1 (validate_notes_succeeds_iff
                           "call the venue and confirm the room"))).
    change (7 ≤ 23)%nat. lia.
Defined.

(** ** The backtracking matcher against the matches of a pattern *)

Section Matcher.

Context {A : Type}.
Implicit Types (r : Re.regex) (g : Re.groups) (s : list ascii)
  (k : Re.groups → list ascii → option A).

(** Whatever the matcher returns comes from a match the continuation accepts. *)
Lemma run_sound r : ∀ g s k a,
  Re.run r g s k = Some a →
  ∃ g' s', re_matches r g s g' s' ∧ k g' s' = Some a.
Proof.
  induction r as [c|lo hi| |r1 IH1 r2 IH2|r1 IH1 r2 IH2|n r IH];
    intros g s k a; simpl.
  - destruct s as [|x s]; [done|]. destruct (Ascii.eqb_spec x c) as [->|]; [|done].
    eauto.
  - destruct s as [|x s]; [done|].
    destruct (Py.in_range _ _ x) eqn:Hx; [|done]. eauto 10.
  - destruct s as [|x s]; [done|].
    destruct (Py.isdigit x) eqn:Hx; [|done]. eauto 10.
  - intros (g1 & s1 & H1 & (g2 & s2 & H2 & Hk)%IH2)%IH1. eauto 10.
  - destruct (Re.run r1 g s k) eqn:E1.
    + intros [= <-]. apply IH1 in E1 as (g' & s' & ? & ?). eauto.
    + intros (g' & s' & ? & ?)%IH2. eauto.
  - intros (g1 & s1 & H1 & Hk)%IH. eauto 10.
Qed.

(** The matcher fails only when the continuation rejects every match. *)
Lemma run_none r : ∀ g s k,
  Re.run r g s k = None →
  ∀ g' s', re_matches r g s g' s' → k g' s' = None.
Proof.
  induction r as [c|lo hi| |r1 IH1 r2 IH2|r1 IH1 r2 IH2|n r IH];
    intros g s k; simpl.
  - intros Hrun g' s' [-> ->]. by rewrite Ascii.eqb_refl in Hrun.
  - intros Hrun g' s' (x & -> & Hx & ->). by rewrite Hx in Hrun.
  - intros Hrun g' s' (x & -> & Hx & ->). by rewrite Hx in Hrun.
  - intros Hrun g' s' (g1 & s1 & H1 & H2).
    eapply IH2; [|done]. by apply (IH1 _ _ _ Hrun).
  - destruct (Re.run r1 g s k) eqn:E1; [done|].
    intros Hrun g' s' [H|H]; eauto.
  - intros Hrun g' s' (g1 & H1 & ->). by apply (IH _ _ _ Hrun _ _ H1).
Qed.

End Matcher.

(** When a pattern has at most one match on an input, [re.match] finds it. *)
Lemma match_prefix_unique r s g' s' :
  (∀ g1 s1 g2 s2, re_matches r [] s g1 s1 → re_matches r [] s g2 s2 →
                  g1 = g2 ∧ s1 = s2) →
  Re.match_prefix r s = Some (g', s') ↔ re_matches r [] s g' s'.
Proof.
  intros Huniq. unfold Re.match_prefix. split.
  - intros (g1 & s1 & H1 & [= <- <-])%run_sound. done.
  - intros Hm. destruct (Re.run r [] s _) as [[g1 s1]|] eqn:Hrun.
    + apply run_sound in Hrun as (g2 & s2 & H2 & [= <- <-]).
      by destruct (Huniq _ _ _ _ Hm H2) as [-> ->].
    + by apply (run_none _ _ _ _ Hrun) in Hm.
Qed.

Lemma match_prefix_none r s :
  Re.match_prefix r s = None ↔ ∀ g' s', ¬ re_matches r [] s g' s'.
Proof.
  unfold Re.match_prefix. split.
  - intros Hrun g' s' Hm. by apply (run_none _ _ _ _ Hrun) in Hm.
  - intros Hno. destruct (Re.run r [] s _) as [[g1 s1]|] eqn:Hrun; [|done].
    apply run_sound in Hrun as (g2 & s2 & H2 & _). by apply Hno in H2.
Qed.

(** ** The language of the pattern for ["%d/%m/%Y"] *)

Section FormatRegex.

Import DateText.

Lemma code_inj (x y : ascii) : Py.code x = Py.code y → x = y.
Proof.
  unfold Py.code. intros H.
  rewrite <- (ascii_N_embedding x), <- (ascii_N_embedding y). by rewrite H.
Qed.

Lemma in_range_iff lo hi c :
  Py.in_range lo hi c = true ↔ (lo ≤ Py.code c ∧ Py.code c ≤ hi)%N.
Proof. unfold Py.in_range. rewrite andb_true_iff, !N.leb_le. done. Qed.

Lemma isdigit_iff c : Py.isdigit c = true ↔ (48 ≤ Py.code c ∧ Py.code c ≤ 57)%N.
Proof. apply in_range_iff. Qed.

Lemma take_consumed (t s' : list ascii) :
  take (length (t ++ s') - length s') (t ++ s') = t.
Proof.
  rewrite length_app. replace (length t + length s' - length s')%nat
    with (length t) by lia. apply take_app_length.
Qed.

Ltac chars_arith :=
  unfold digit_val in *;
  repeat match goal with
         | H : Py.isdigit _ = true |- _ => apply isdigit_iff in H
         | H : Py.in_range _ _ _ = true |- _ => apply in_range_iff in H
         | |- Py.isdigit _ = true => apply isdigit_iff
         | |- Py.in_range _ _ _ = true => apply in_range_iff
         end;
  change (Py.code "0") with 48%N in *; change (Py.code "1") with 49%N in *;
  change (Py.code "2") with 50%N in *; change (Py.code "3") with 51%N in *;
  change (Py.code "9") with 57%N in *; change (Py.code " ") with 32%N in *;
  try lia.

Lemma lit_of_code (x c : ascii) : Py.code x = Py.code c → x = c.
Proof. apply code_inj. Qed.

Lemma matches_day_body g s g' s' :
  re_matches
    (Re.Alt (Re.Seq (Re.Lit "3") (Re.Range "0" "1"))
    (Re.Alt (Re.Seq (Re.Range "1" "2") Re.Digit)
    (Re.Alt (Re.Seq (Re.Lit "0") (Re.Range "1" "9"))
    (Re.Alt (Re.Range "1" "9")
            (Re.Seq (Re.Lit " ") (Re.Range "1" "9")))))) g s g' s'
  ↔ g' = g ∧ ∃ t v, s = t ++ s' ∧ day_text t v.
Proof.
  simpl. split.
  - intros [(g1 & s1 & [-> ->] & b & -> & Hb & ->)
           |[(g1 & s1 & (a & -> & Ha & ->) & b & -> & Hb & ->)
           |[(g1 & s1 & [-> ->] & b & -> & Hb & ->)
           |[(a & -> & Ha & ->)
           |(g1 & s1 & [-> ->] & b & -> & Hb & ->)]]]]; split; try done.
    + exists ["3"%char; b], (10 * digit_val "3" + digit_val b). split; [done|].
      split; [left; exists "3"%char, b; repeat split; chars_arith|chars_arith].
    + exists [a; b], (10 * digit_val a + digit_val b). split; [done|].
      split; [left; exists a, b; repeat split; chars_arith|chars_arith].
    + exists ["0"%char; b], (10 * digit_val "0" + digit_val b). split; [done|].
      split; [left; exists "0"%char, b; repeat split; chars_arith|chars_arith].
    + exists [a], (digit_val a). split; [done|].
      split; [right; left; exists a; repeat split; chars_arith|chars_arith].
    + exists [" "%char; b], (digit_val b). split; [done|].
      split; [|chars_arith].
      right; right. exists [b]. split; [done|]. exists b; repeat split; chars_arith.
  - intros [-> (t & v & -> & [[(a & b & -> & Ha & Hb & ->)
                               |[(a & -> & Ha & ->)
                               |(t' & -> & a & -> & Ha & ->)]] Hv])].
    + assert (Py.code a = 51 ∨ (49 ≤ Py.code a ≤ 50) ∨ Py.code a = 48)%N
        as [H3|[H12|H0]] by chars_arith.
      * apply (lit_of_code a "3") in H3 as ->. left.
        exists g, (b :: s'). split; [done|]. exists b. repeat split; chars_arith.
      * right; left. exists g, (b :: s'). split.
        -- exists a. repeat split; chars_arith.
        -- exists b. repeat split; chars_arith.
      * apply (lit_of_code a "0") in H0 as ->. right; right; left.
        exists g, (b :: s'). split; [done|]. exists b. repeat split; chars_arith.
    + right; right; right; left. exists a. repeat split; chars_arith.
    + right; right; right; right. exists g, (a :: s'). split; [done|].
      exists a. repeat split; chars_arith.
Qed.

Lemma matches_month_body g s g' s' :
  re_matches
    (Re.Alt (Re.Seq (Re.Lit "1") (Re.Range "0" "2"))
    (Re.Alt (Re.Seq (Re.Lit "0") (Re.Range "1" "9"))
            (Re.Range "1" "9"))) g s g' s'
  ↔ g' = g ∧ ∃ t v, s = t ++ s' ∧ month_text t v.
Proof.
  simpl. split.
  - intros [(g1 & s1 & [-> ->] & b & -> & Hb & ->)
           |[(g1 & s1 & [-> ->] & b & -> & Hb & ->)
           |(a & -> & Ha & ->)]]; split; try done.
    + exists ["1"%char; b], (10 * digit_val "1" + digit_val b). split; [done|].
      split; [left; exists "1"%char, b; repeat split; chars_arith|chars_arith].
    + exists ["0"%char; b], (10 * digit_val "0" + digit_val b). split; [done|].
      split; [left; exists "0"%char, b; repeat split; chars_arith|chars_arith].
    + exists [a], (digit_val a). split; [done|].
      split; [right; exists a; repeat split; chars_arith|chars_arith].
  - intros [-> (t & v & -> & [[(a & b & -> & Ha & Hb & ->)
                               |(a & -> & Ha & ->)] Hv])].
    + assert (Py.code a = 49 ∨ Py.code a = 48)%N as [H1|H0] by chars_arith.
      * apply (lit_of_code a "1") in H1 as ->. left.
        exists g, (b :: s'). split; [done|]. exists b. repeat split; chars_arith.
      * apply (lit_of_code a "0") in H0 as ->. right; left.
        exists g, (b :: s'). split; [done|]. exists b. repeat split; chars_arith.
    + right; right. exists a. repeat split; chars_arith.
Qed.

Lemma matches_year_body g s g' s' :
  re_matches (Re.Seq Re.Digit (Re.Seq Re.Digit (Re.Seq Re.Digit Re.Digit))) g s g' s'
  ↔ g' = g ∧ ∃ t v, s = t ++ s' ∧ four_digits t v.
Proof.
  simpl. split.
  - intros (g1 & s1 & (a & -> & Ha & ->) & g2 & s2 & (b & -> & Hb & ->)
            & g3 & s3 & (c & -> & Hc & ->) & d & -> & Hd & ->).
    split; [done|]. exists [a; b; c; d]. eexists. split; [done|].
    exists a, b, c, d. done.
  - intros [-> (t & v & -> & a & b & c & d & -> & Ha & Hb & Hc & Hd & ->)].
    exists g, (b :: c :: d :: s'). split; [by exists a|].
    exists g, (c :: d :: s'). split; [by exists b|].
    exists g, (d :: s'). split; [by exists c|by exists d].
Qed.

End FormatRegex.

(** ** What [strptime] accepts *)

Section StrptimeLanguage.

Import DateText.

Lemma matches_group_iff n r g s g' s' :
  re_matches (Re.Group n r) g s g' s'
  ↔ ∃ g1, re_matches r g s g1 s' ∧ g' = (n, take (length s - length s') s) :: g1.
Proof. done. Qed.

Lemma matches_seq_iff r1 r2 g s g' s' :
  re_matches (Re.Seq r1 r2) g s g' s'
  ↔ ∃ g1 s1, re_matches r1 g s g1 s1 ∧ re_matches r2 g1 s1 g' s'.
Proof. done. Qed.

Lemma matches_lit_iff c g s g' s' :
  re_matches (Re.Lit c) g s g' s' ↔ s = c :: s' ∧ g' = g.
Proof. done. Qed.

Lemma matches_re_d g s g' s' :
  re_matches Strptime.re_d g s g' s'
  ↔ ∃ t v, s = t ++ s' ∧ day_text t v ∧ g' = ("d", t) :: g.
Proof.
  unfold Strptime.re_d. rewrite matches_group_iff. split.
  - intros (g1 & [-> (t & v & -> & Hd)]%matches_day_body & ->).
    exists t, v. by rewrite take_consumed.
  - intros (t & v & -> & Hd & ->). exists g. rewrite take_consumed.
    split; [|done]. apply matches_day_body. eauto.
Qed.

Lemma matches_re_m g s g' s' :
  re_matches Strptime.re_m g s g' s'
  ↔ ∃ t v, s = t ++ s' ∧ month_text t v ∧ g' = ("m", t) :: g.
Proof.
  unfold Strptime.re_m. rewrite matches_group_iff. split.
  - intros (g1 & [-> (t & v & -> & Hd)]%matches_month_body & ->).
    exists t, v. by rewrite take_consumed.
  - intros (t & v & -> & Hd & ->). exists g. rewrite take_consumed.
    split; [|done]. apply matches_month_body. eauto.
Qed.

Lemma matches_re_Y g s g' s' :
  re_matches Strptime.re_Y g s g' s'
  ↔ ∃ t v, s = t ++ s' ∧ four_digits t v ∧ g' = ("Y", t) :: g.
Proof.
  unfold Strptime.re_Y. rewrite matches_group_iff. split.
  - intros (g1 & [-> (t & v & -> & Hd)]%matches_year_body & ->).
    exists t, v. by rewrite take_consumed.
  - intros (t & v & -> & Hd & ->). exists g. rewrite take_consumed.
    split; [|done]. apply matches_year_body. eauto.
Qed.

(** The matches of the whole pattern: day text, slash, month text, slash,
    four digits, and whatever follows. *)
Lemma matches_format s g' s' :
  re_matches Strptime.format_regex [] s g' s'
  ↔ ∃ dt mt yt dv mv yv,
      s = dt ++ "/"%char :: mt ++ "/"%char :: yt ++ s'
      ∧ day_text dt dv ∧ month_text mt mv ∧ four_digits yt yv
      ∧ g' = [("Y", yt); ("m", mt); ("d", dt)].
Proof.
  unfold Strptime.format_regex. split.
  - intros (g1 & s1 & (dt & dv & -> & Hd & ->)%matches_re_d
            & (g2 & s2 & [-> ->]%matches_lit_iff
            & (g3 & s3 & (mt & mv & -> & Hm & ->)%matches_re_m
            & (g4 & s4 & [-> ->]%matches_lit_iff
            & (yt & yv & -> & Hy & ->)%matches_re_Y)%matches_seq_iff
              )%matches_seq_iff)%matches_seq_iff)%matches_seq_iff.
    exists dt, mt, yt, dv, mv, yv. done.
  - intros (dt & mt & yt & dv & mv & yv & -> & Hd & Hm & Hy & ->).
    apply matches_seq_iff. eexists _, _. split; [apply matches_re_d; eauto|].
    apply matches_seq_iff. eexists _, _. split; [by apply matches_lit_iff|].
    apply matches_seq_iff. eexists _, _. split; [apply matches_re_m; eauto|].
    apply matches_seq_iff. eexists _, _. split; [by apply matches_lit_iff|].
    apply matches_re_Y. eauto.
Qed.

Lemma app_sep_unique (c : ascii) (a1 a2 b1 b2 : list ascii) :
  c ∉ a1 → c ∉ a2 → a1 ++ c :: b1 = a2 ++ c :: b2 → a1 = a2 ∧ b1 = b2.
Proof.
  revert a2. induction a1 as [|x a1 IH]; intros [|y a2] H1 H2 Heq; simpl in *.
  - by inversion Heq.
  - inversion Heq; subst. exfalso. apply H2. left.
  - inversion Heq; subst. exfalso. apply H1. left.
  - inversion Heq; subst. apply not_elem_of_cons in H1 as [_ H1].
    apply not_elem_of_cons in H2 as [_ H2].
    destruct (IH a2 H1 H2) as [-> ->]; done.
Qed.

Lemma digit_not_slash c : Py.isdigit c = true → c ≠ "/"%char.
Proof. intros H ->. done. Qed.

Lemma day_text_no_slash t v : day_text t v → "/"%char ∉ t.
Proof.
  intros [[(a & b & -> & Ha & Hb & _)|[(a & -> & Ha & _)|(t' & -> & a & -> & Ha & _)]] _];
    repeat (apply not_elem_of_cons; split); try apply not_elem_of_nil;
    try done; intros <-; done.
Qed.

Lemma month_text_no_slash t v : month_text t v → "/"%char ∉ t.
Proof.
  intros [[(a & b & -> & Ha & Hb & _)|(a & -> & Ha & _)] _];
    repeat (apply not_elem_of_cons; split); try apply not_elem_of_nil;
    intros <-; done.
Qed.

Lemma four_digits_length t v : four_digits t v → length t = 4%nat.
Proof. by intros (a & b & c & d & -> & _). Qed.

(** The pattern matches any input in at most one way. *)
Lemma matches_format_unique s g1 s1 g2 s2 :
  re_matches Strptime.format_regex [] s g1 s1 →
  re_matches Strptime.format_regex [] s g2 s2 →
  g1 = g2 ∧ s1 = s2.
Proof.
  intros (dt & mt & yt & dv & mv & yv & -> & Hd & Hm & Hy & ->)%matches_format
         (dt' & mt' & yt' & dv' & mv' & yv' & Heq & Hd' & Hm' & Hy' & ->)%matches_format.
  apply app_sep_unique in Heq as [-> Heq];
    [|by eapply day_text_no_slash..].
  apply app_sep_unique in Heq as [-> Heq];
    [|by eapply month_text_no_slash..].
  apply four_digits_length in Hy, Hy'.
  apply app_inj_1 in Heq as [-> ->]; [done|congruence].
Qed.

End StrptimeLanguage.

Section StrptimeValue.

Import DateText.

Lemma digit_not_space c : Py.isdigit c = true → Py.isspace c = false.
Proof.
  intros [H1 H2]%isdigit_iff. unfold Py.isspace, Py.in_range.
  repeat (apply orb_false_iff; split);
    try apply andb_false_iff; try apply N.eqb_neq; try lia.
  - right. apply N.leb_gt. lia.
  - right. apply N.leb_gt. lia.
Qed.

Lemma strip_digits_id (t : list ascii) :
  Forall (λ c, Py.isdigit c = true) t → Py.strip t = t.
Proof.
  intros Ht. symmetry. apply trimmed_strip. exists [], [].
  rewrite app_nil_r. repeat split; try done.
  - intros c Hc. apply digit_not_space.
    destruct t; simplify_eq/=. by inversion Ht.
  - intros c Hc. apply digit_not_space.
    apply last_Some in Hc as (l' & ->). apply Forall_app in Ht as [_ Ht].
    by inversion Ht.
Qed.

Lemma int_one_digit t v : one_digit t v → Strptime.int t = Some v.
Proof.
  intros (a & -> & Ha & ->). unfold Strptime.int.
  rewrite strip_digits_id by (by repeat constructor).
  simpl. rewrite Ha. unfold digit_val. f_equal.
Qed.

Lemma int_two_digits t v : two_digits t v → Strptime.int t = Some v.
Proof.
  intros (a & b & -> & Ha & Hb & ->). unfold Strptime.int.
  rewrite strip_digits_id by (by repeat constructor).
  simpl. rewrite Ha, Hb. unfold digit_val. f_equal.
Qed.

Lemma int_four_digits t v : four_digits t v → Strptime.int t = Some v.
Proof.
  intros (a & b & c & d & -> & Ha & Hb & Hc & Hd & ->). unfold Strptime.int.
  rewrite strip_digits_id by (by repeat constructor).
  simpl. rewrite Ha, Hb, Hc, Hd. unfold digit_val. f_equal. lia.
Qed.

Lemma int_space_digit t v : one_digit t v → Strptime.int (" "%char :: t) = Some v.
Proof.
  intros (a & -> & Ha & ->). unfold Strptime.int.
  assert (Py.strip [" "%char; a] = [a]) as ->.
  { symmetry. apply trimmed_strip. exists [" "%char], [].
    repeat split; try done; intros c [= <-]; by apply digit_not_space. }
  simpl. rewrite Ha. unfold digit_val. f_equal.
Qed.

Lemma int_day_text t v : day_text t v → Strptime.int t = Some v.
Proof.
  intros [[H|[H|(t' & -> & H)]] _];
    auto using int_one_digit, int_two_digits, int_space_digit.
Qed.

Lemma int_month_text t v : month_text t v → Strptime.int t = Some v.
Proof. intros [[H|H] _]; auto using int_one_digit, int_two_digits. Qed.

Lemma check_date_fields_iff y m d :
  Datetime.check_date_fields y m d = true ↔ real_date y m d.
Proof.
  unfold Datetime.check_date_fields, real_date, Datetime.MINYEAR, Datetime.MAXYEAR.
  rewrite !andb_true_iff, !Z.leb_le. tauto.
Qed.

Lemma days_in_month_le_31 y m : Datetime.days_in_month y m ≤ 31.
Proof.
  unfold Datetime.days_in_month.
  repeat match goal with |- context [if ?b then _ else _] => destruct b end; lia.
Qed.

Lemma four_digits_range t v : four_digits t v → 0 ≤ v ≤ 9999.
Proof.
  intros (a & b & c & d & -> & Ha%isdigit_iff & Hb%isdigit_iff
          & Hc%isdigit_iff & Hd%isdigit_iff & ->).
  unfold digit_val. lia.
Qed.

(** [strptime] returns a date exactly for the texts of the lenient
    grammar, and then the date written there, at midnight. *)
Lemma strptime_iff s t :
  Strptime.strptime s = Some t
  ↔ ∃ y m d, lenient s y m d ∧ t = mkDatetime y m d 0 0 0 0.
Proof.
  unfold Strptime.strptime. split.
  - destruct (Re.match_prefix _ _) as [[g rest]|] eqn:Hm; [|done].
    destruct rest as [|? ?]; [|done].
    apply match_prefix_unique in Hm; [|apply matches_format_unique].
    apply matches_format in Hm
      as (dt & mt & yt & dv & mv & yv & Hs & Hd & Hmo & Hy & ->).
    simpl. rewrite (int_four_digits _ _ Hy), (int_month_text _ _ Hmo),
      (int_day_text _ _ Hd). simpl.
    destruct (Datetime.check_date_fields yv mv dv) eqn:Hchk; [|done].
    intros [= <-]. exists yv, mv, dv. split; [|done].
    exists dt, mt, yt. rewrite app_nil_r in Hs.
    destruct Hd as [Hd _], Hmo as [Hmo _].
    by apply check_date_fields_iff in Hchk.
  - intros (y & m & d & (dt & mt & yt & Hs & Hd & Hmo & Hy & Hreal) & ->).
    assert (day_text dt d) as Hd'.
    { split; [done|]. pose proof (days_in_month_le_31 y m).
      unfold real_date in Hreal. lia. }
    assert (month_text mt m) as Hm' by (split; [done|unfold real_date in Hreal; lia]).
    assert (Re.match_prefix Strptime.format_regex (chars s)
            = Some ([("Y", yt); ("m", mt); ("d", dt)], [])) as ->.
    { apply match_prefix_unique; [apply matches_format_unique|].
      apply matches_format. exists dt, mt, yt, d, m, y.
      rewrite app_nil_r. done. }
    simpl. rewrite (int_four_digits _ _ Hy), (int_month_text _ _ Hm'),
      (int_day_text _ _ Hd'). simpl.
    apply check_date_fields_iff in Hreal. by rewrite Hreal.
Qed.

Lemma strptime_none_iff s :
  Strptime.strptime s = None ↔ ¬ ∃ y m d, lenient s y m d.
Proof.
  split.
  - intros Hn (y & m & d & Hl).
    assert (Strptime.strptime s = Some (mkDatetime y m d 0 0 0 0)) as Hs
      by (apply strptime_iff; eauto).
    congruence.
  - intros Hno. destruct (Strptime.strptime s) as [t|] eqn:Hs; [|done].
    apply strptime_iff in Hs as (y & m & d & Hl & _). exfalso. eauto.
Qed.

(** The strict grammar of the specification is part of the lenient one. *)
Lemma strict_lenient s y m d : strict s y m d → lenient s y m d.
Proof.
  intros (dt & mt & yt & Hs & Hd & Hm & Hy & Hr).
  exists dt, mt, yt. auto 10.
Qed.

End StrptimeValue.

(** ** The date validator *)

Section ValidateDate.

Import DateText.

Lemma ltb_midnight y m d clock :
  Datetime.ltb (mkDatetime y m d 0 0 0 0) (Datetime.at_midnight clock) = true
  ↔ day_before y m d clock.
Proof.
  unfold Datetime.ltb, Datetime.at_midnight, day_before. simpl.
  rewrite !orb_true_iff, !andb_true_iff, !orb_true_iff, !andb_true_iff,
    !Z.ltb_lt, !Z.eqb_eq.
  intuition lia.
Qed.

Lemma chars_text (l : list ascii) : chars (text l) = l.
Proof. apply list_ascii_of_string_of_list_ascii. Qed.

Lemma text_chars (s : string) : text (chars s) = s.
Proof. apply string_of_list_ascii_of_string. Qed.

Lemma digit_char_code n : Py.code (Datetime.digit_char n) = (48 + Z.to_N (n mod 10))%N.
Proof.
  unfold Py.code, Datetime.digit_char. apply N_ascii_embedding.
  pose proof (Z.mod_pos_bound n 10). lia.
Qed.

Lemma digit_char_isdigit n : Py.isdigit (Datetime.digit_char n) = true.
Proof.
  apply isdigit_iff. rewrite digit_char_code.
  pose proof (Z.mod_pos_bound n 10). lia.
Qed.

Lemma digit_char_val n : digit_val (Datetime.digit_char n) = n mod 10.
Proof.
  unfold digit_val. rewrite digit_char_code.
  pose proof (Z.mod_pos_bound n 10). lia.
Qed.

Lemma pad2_two_digits n : 0 ≤ n ≤ 99 → two_digits (Datetime.pad2 n) n.
Proof.
  intros Hn. exists (Datetime.digit_char (n / 10)), (Datetime.digit_char n).
  rewrite !digit_char_isdigit, !digit_char_val. repeat split.
  Z.div_mod_to_equations. lia.
Qed.

Lemma pad4_four_digits n : 0 ≤ n ≤ 9999 → four_digits (Datetime.pad4 n) n.
Proof.
  intros Hn.
  exists (Datetime.digit_char (n / 1000)), (Datetime.digit_char (n / 100)),
    (Datetime.digit_char (n / 10)), (Datetime.digit_char n).
  rewrite !digit_char_isdigit, !digit_char_val. repeat split.
  Z.div_mod_to_equations. lia.
Qed.

(** The stored form of a real date reads back as that date. *)
Lemma canonical_is_canonical y m d :
  real_date y m d → is_canonical (canonical y m d) y m d.
Proof.
  intros (Hy & Hm & Hd). pose proof (days_in_month_le_31 y m).
  unfold canonical, Datetime.strftime_Ymd. simpl year; simpl month; simpl day.
  exists (Datetime.pad4 y), (Datetime.pad2 m), (Datetime.pad2 d).
  rewrite chars_text. split; [done|].
  split; [apply pad4_four_digits; lia|].
  split; apply pad2_two_digits; lia.
Qed.

(** The three outcomes of [validate_date], by what the input text says. *)
Lemma validate_date_cases s clock :
  (¬ (∃ y m d, lenient s y m d) ∧ validate_date s clock = (false, msg_date_format))
  ∨ (∃ y m d, lenient s y m d ∧ day_before y m d clock
              ∧ validate_date s clock = (false, msg_past_date))
  ∨ (∃ y m d, lenient s y m d ∧ ¬ day_before y m d clock
              ∧ validate_date s clock = (true, canonical y m d)).
Proof.
  unfold validate_date. destruct (Strptime.strptime s) as [t|] eqn:Hs.
  - right. apply strptime_iff in Hs as (y & m & d & Hl & ->).
    destruct (Datetime.ltb _ _) eqn:Hlt.
    + left. exists y, m, d. by apply ltb_midnight in Hlt.
    + right. exists y, m, d. split; [done|]. split; [|done].
      intros Hb%ltb_midnight. congruence.
  - left. by apply strptime_none_iff in Hs.
Qed.

(** A text names at most one date. *)
Lemma lenient_functional s y m d y' m' d' :
  lenient s y m d → lenient s y' m' d' → y = y' ∧ m = m' ∧ d = d'.
Proof.
  intros H1 H2.
  assert (Strptime.strptime s = Some (mkDatetime y m d 0 0 0 0)) as E1
    by (apply strptime_iff; eauto).
  assert (Strptime.strptime s = Some (mkDatetime y' m' d' 0 0 0 0)) as E2
    by (apply strptime_iff; eauto).
  rewrite E1 in E2. by inversion E2.
Qed.

End ValidateDate.

Section DateClaims.

Import DateText.

Lemma msg_past_not_format : msg_past_date ≠ msg_date_format.
Proof. done. Qed.

(** C1. [validate_date] fails with the past-date message exactly when the
    text parses as a real calendar date that lies strictly before the
    calendar day of the clock (the time of day plays no part); it
    succeeds exactly when the text parses as a date that does not, and
    then returns that date in the form YYYY-MM-DD. On 2025-06-15, at any
    time of day, "14/06/2025" is a past date and "15/06/2025" is
    accepted as "2025-06-15". *)
Theorem validate_date_past_iff (s : string) (clock : datetime) :
  (validate_date s clock = (false, msg_past_date)
     ↔ ∃ y m d, lenient s y m d ∧ day_before y m d clock)
  ∧ (∀ out, validate_date s clock = (true, out)
     ↔ ∃ y m d, lenient s y m d ∧ ¬ day_before y m d clock
                ∧ out = canonical y m d ∧ is_canonical out y m d)
  ∧ (∀ h mi sec us,
       validate_date "14/06/2025" (mkDatetime 2025 6 15 h mi sec us)
       = (false, msg_past_date))
  ∧ (∀ h mi sec us,
       validate_date "15/06/2025" (mkDatetime 2025 6 15 h mi sec us)
       = (true, "2025-06-15")).
Proof.
  split; [|split; [|split; intros; reflexivity]].
  - destruct (validate_date_cases s clock)
      as [[Hno Hv]|[(y & m & d & Hl & Hb & Hv)|(y & m & d & Hl & Hb & Hv)]];
      rewrite Hv; split; try done.
    + intros (y & m & d & Hl & _). exfalso. eauto.
    + eauto.
    + intros (y' & m' & d' & Hl' & Hb').
      destruct (lenient_functional _ _ _ _ _ _ _ Hl Hl') as (-> & -> & ->). done.
  - intros out. destruct (validate_date_cases s clock)
      as [[Hno Hv]|[(y & m & d & Hl & Hb & Hv)|(y & m & d & Hl & Hb & Hv)]];
      rewrite Hv; split; try done.
    + intros (y & m & d & Hl & _). exfalso. eauto.
    + intros (y' & m' & d' & Hl' & Hb' & _).
      destruct (lenient_functional _ _ _ _ _ _ _ Hl Hl') as (-> & -> & ->). done.
    + intros [= <-]. exists y, m, d. repeat split; try done.
      apply canonical_is_canonical. by destruct Hl as (? & ? & ? & ? & ? & ? & ? & ?).
    + intros (y' & m' & d' & Hl' & Hb' & -> & _).
      destruct (lenient_functional _ _ _ _ _ _ _ Hl Hl') as (-> & -> & ->). done.
Qed.

Lemma one_digit_day_not_strict : ¬ ∃ y m d, strict "5/6/2030" y m d.
Proof.
  intros (y & m & d & dt & mt & yt & Hs & (a & b & -> & _) & _).
  unfold chars in Hs. simpl in Hs. discriminate Hs.
Qed.

(** C2, as stated, fails: "5/6/2030" does not have a two-digit day and a
    two-digit month, yet on 2025-06-15 it is accepted. *)
Lemma validate_date_format_strict_counterexample :
  ¬ (∀ s clock,
       validate_date s clock = (false, msg_date_format)
       ↔ ¬ ∃ y m d, strict s y m d).
Proof.
  intros H.
  pose proof (proj2 (H "5/6/2030" (mkDatetime 2025 6 15 0 0 0 0))
                one_digit_day_not_strict) as Hv.
  vm_compute in Hv. discriminate Hv.
Qed.

(** C2, amended. For a text of characters up to U+00FF, [validate_date]
    fails with the date-format message exactly when the text is not
    day/month/year with a day of one or two of the digits 0 to 9 (or a
    space and one such digit), a month of one or two such digits and a
    year of exactly four such digits that together name a real calendar
    date of the years 0001 to 9999. Every text of the strict form
    DD/MM/YYYY naming such a date passes the format check, and
    "31/04/2025" fails it, never as a past date, whatever the clock. *)
Theorem validate_date_format_iff (s : string) (clock : datetime) :
  (validate_date s clock = (false, msg_date_format)
     ↔ ¬ ∃ y m d, lenient s y m d)
  ∧ ((∃ y m d, strict s y m d) →
     validate_date s clock ≠ (false, msg_date_format))
  ∧ validate_date "31/04/2025" clock = (false, msg_date_format)
  ∧ validate_date "31/04/2025" clock ≠ (false, msg_past_date).
Proof.
  assert (validate_date s clock = (false, msg_date_format)
          ↔ ¬ ∃ y m d, lenient s y m d) as Hiff.
  { destruct (validate_date_cases s clock)
      as [[Hno Hv]|[(y & m & d & Hl & Hb & Hv)|(y & m & d & Hl & Hb & Hv)]];
      rewrite Hv; split; try done.
    - intros Hno. exfalso. eauto.
    - intros Hno. exfalso. eauto. }
  split; [done|]. split; [|split; [reflexivity|done]].
  intros (y & m & d & Hst) Hv. apply Hiff in Hv. apply Hv.
  eauto using strict_lenient.
Qed.

Lemma validate_date_format_iff_witness :
  validate_date "29/02/2028" (mkDatetime 2025 6 15 9 30 0 0)
  ≠ (false, msg_date_format).
Proof.
  apply (validate_date_format_iff "29/02/2028" (mkDatetime 2025 6 15 9 30 0 0)).
  exists 2028, 2, 29, (chars "29"), (chars "02"), (chars "2028").
  split; [reflexivity|].
  split; [exists "2"%char, "9"%char; by repeat split|].
  split; [exists "0"%char, "2"%char; by repeat split|].
  split; [exists "2"%char, "0"%char, "2"%char, "8"%char; by repeat split|].
  unfold real_date. vm_compute. intuition discriminate.
Defined.

(** C9, as stated, fails: [validate_date] has no current-day input and
    reads the clock itself, so one and the same text is judged
    differently at different clock readings. *)
Lemma validate_date_reads_clock_counterexample :
  ¬ (∀ s clock1 clock2, validate_date s clock1 = validate_date s clock2).
Proof.
  intros H.
  specialize (H "14/06/2025" (mkDatetime 2025 6 14 0 0 0 0)
                (mkDatetime 2025 6 15 0 0 0 0)).
  vm_compute in H. discriminate H.
Qed.

Lemma day_before_same_day y m d c1 c2 :
  same_day c1 c2 → day_before y m d c1 ↔ day_before y m d c2.
Proof. intros (Hy & Hm & Hd). unfold day_before. rewrite Hy, Hm, Hd. done. Qed.

(** C9, amended. The title and notes validators are functions of their
    input text alone; the date validator reads the clock, and its result
    is a function of the input text and the calendar day of the clock:
    two calls with the same text at clock readings of the same day
    return identical results, whatever the time of day. *)
Theorem validate_date_same_day (s : string) (clock1 clock2 : datetime) :
  same_day clock1 clock2 → validate_date s clock1 = validate_date s clock2.
Proof.
  intros Hsame.
  destruct (validate_date_cases s clock1)
    as [[Hno Hv]|[(y & m & d & Hl & Hb & Hv)|(y & m & d & Hl & Hb & Hv)]];
    destruct (validate_date_cases s clock2)
    as [[Hno' Hv']|[(y' & m' & d' & Hl' & Hb' & Hv')|(y' & m' & d' & Hl' & Hb' & Hv')]];
    rewrite Hv, Hv'; try done;
    try (exfalso; eauto; fail);
    destruct (lenient_functional _ _ _ _ _ _ _ Hl Hl') as (-> & -> & ->);
    try done;
    apply (day_before_same_day y' m' d' _ _) in Hsame; tauto.
Qed.

Lemma validate_date_same_day_witness :
  validate_date "15/06/2025" (mkDatetime 2025 6 15 0 0 0 0)
  = validate_date "15/06/2025" (mkDatetime 2025 6 15 23 59 59 999999).
Proof.
  apply (validate_date_same_day "15/06/2025").
  unfold same_day. simpl. repeat split; reflexivity.
Defined.

End DateClaims.

(** ** Text order, [LIKE] and [ORDER BY] *)

Section SqlFacts.

Lemma text_le_negb_lt a b : Sql.text_le a b = negb (Sql.text_lt b a).
Proof.
  unfold Sql.text_le, Sql.text_lt, String.leb, String.ltb.
  rewrite (String.compare_antisym b a). by destruct (String.compare a b).
Qed.

Lemma text_lt_le a b : Sql.text_lt a b = true → Sql.text_le a b = true.
Proof.
  unfold Sql.text_le, Sql.text_lt, String.leb, String.ltb.
  by destruct (String.compare a b).
Qed.

Lemma text_le_lt_eq a b :
  Sql.text_le a b = true → Sql.text_lt a b = true ∨ a = b.
Proof.
  unfold Sql.text_le, Sql.text_lt, String.leb, String.ltb.
  destruct (String.compare a b) eqn:Hc; try done; [|by left].
  right. by apply String.compare_eq_iff.
Qed.

Lemma text_le_trans a b c :
  Sql.text_le a b = true → Sql.text_le b c = true → Sql.text_le a c = true.
Proof.
  unfold Sql.text_le. intros H1%Is_true_true H2%Is_true_true.
  apply Is_true_true. change (String.le a c).
  by trans b.
Qed.

Lemma text_lt_irrefl a : Sql.text_lt a a = false.
Proof.
  pose proof (text_le_negb_lt a a) as H.
  assert (Sql.text_le a a = true) as Hle.
  { apply Is_true_true. change (String.le a a). done. }
  rewrite Hle in H. by destruct (Sql.text_lt a a).
Qed.

Lemma chars_append (a b : string) : chars (a ++ b)%string = chars a ++ chars b.
Proof. induction a as [|c a IH]; simpl; [done|]. unfold chars in *. simpl. by f_equal. Qed.

Lemma like_chars_percent s : Sql.like_chars ["%"%char] s = true.
Proof. simpl. induction s as [|x s IH]; simpl; [done|]. by rewrite IH. Qed.

Lemma like_literal_inv c :
  like_literal c = true →
  Ascii.eqb c "%" = false ∧ Ascii.eqb c "_" = false
  ∧ Py.in_range 65 90 c = false ∧ Py.in_range 97 122 c = false
  ∧ Ascii.eqb c "000" = false.
Proof.
  unfold like_literal. rewrite !andb_true_iff, !negb_true_iff. tauto.
Qed.

Lemma tolower_literal c x :
  like_literal c = true → Ascii.eqb (Sql.tolower c) (Sql.tolower x) = Ascii.eqb c x.
Proof.
  intros (_ & _ & Hup & Hlo & _)%like_literal_inv. unfold Sql.tolower. rewrite Hup.
  destruct (Py.in_range 65 90 x) eqn:Hx; [|done].
  destruct (Ascii.eqb_spec c x) as [->|Hne]; [congruence|].
  apply Ascii.eqb_neq. intros ->.
  apply in_range_iff in Hx. apply not_true_iff_false in Hlo. apply Hlo.
  apply in_range_iff. unfold Py.code. rewrite N_ascii_embedding; unfold Py.code in *; lia.
Qed.

Lemma c_string_literal (l : list ascii) :
  forallb like_literal l = true → Sql.c_string (l ++ ["%"%char]) = l ++ ["%"%char].
Proof.
  induction l as [|c l IH]; simpl; [done|].
  intros [(_ & _ & _ & _ & ->)%like_literal_inv Hl]%andb_true_iff. by rewrite IH.
Qed.

(** With a plain filter, [date LIKE filter || '%'] is the prefix test. *)
Lemma like_prefix (m s : string) :
  plain_filter m →
  Sql.like (chars (m ++ "%")%string) (chars s) = String.prefix m s.
Proof.
  intros [Hm _]. unfold Sql.like. rewrite chars_append.
  change (chars "%") with ["%"%char]. rewrite c_string_literal by done.
  revert s. induction m as [|c m IH]; intros s.
  - change (chars "" ++ ["%"%char]) with ["%"%char]. rewrite like_chars_percent.
    by destruct s.
  - change (chars (String c m)) with (c :: chars m) in *. simpl in Hm.
    apply andb_true_iff in Hm as [Hc Hm].
    change ((c :: chars m) ++ ["%"%char]) with (c :: (chars m ++ ["%"%char])).
    cbn [Sql.like_chars].
    destruct (like_literal_inv _ Hc) as (-> & Hu & _ & _ & Hnul).
    destruct s as [|x s]; [done|].
    change (chars (String x s)) with (x :: chars s). cbn [Sql.c_string].
    destruct (Ascii.eqb_spec x "000") as [->|Hx].
    + simpl. destruct (ascii_dec c "000") as [->|]; [done|done].
    + rewrite Hu, tolower_literal, IH by done. simpl.
      destruct (Ascii.eqb_spec c x) as [->|Hne].
      * by destruct (ascii_dec x x).
      * by destruct (ascii_dec c x).
Qed.

Lemma select_where_date_like_ok pattern (db : Store) :
  Sql.like_pattern_ok pattern = true →
  Sql.select_where_date_like pattern db
  = Some (Sql.order_by_date
            (List.filter (λ r, Sql.like (chars pattern) (chars (date r))) db)).
Proof. intros Hok. unfold Sql.select_where_date_like. rewrite Hok. by destruct db. Qed.

Lemma elem_of_insert_by_date r x l :
  r ∈ Sql.insert_by_date x l ↔ r = x ∨ r ∈ l.
Proof.
  induction l as [|y l IH]; simpl.
  - rewrite list_elem_of_singleton, elem_of_nil. tauto.
  - destruct (Sql.text_le (date x) (date y)).
    + by rewrite elem_of_cons.
    + rewrite !elem_of_cons, IH. tauto.
Qed.

Lemma insert_by_date_perm x l : Sql.insert_by_date x l ≡ₚ x :: l.
Proof.
  induction l as [|y l IH]; simpl; [done|].
  destruct (Sql.text_le (date x) (date y)); [done|].
  rewrite IH. apply Permutation_swap.
Qed.

Lemma order_by_date_perm l : Sql.order_by_date l ≡ₚ l.
Proof.
  induction l as [|x l IH]; simpl; [done|].
  by rewrite insert_by_date_perm, IH.
Qed.

Lemma listed_before_date_le r1 r2 :
  listed_before r1 r2 → Sql.text_le (date r1) (date r2) = true.
Proof.
  intros [H|[-> _]]; [by apply text_lt_le|].
  rewrite text_le_negb_lt, text_lt_irrefl. done.
Qed.

(** Inserting a row that was scanned before all rows already sorted
    keeps the list ordered by date, then id. *)
Lemma insert_by_date_sorted x l :
  StronglySorted listed_before l →
  Forall (λ y, id x < id y) l →
  StronglySorted listed_before (Sql.insert_by_date x l).
Proof.
  induction l as [|y l IH]; intros Hs Hid; simpl.
  - repeat constructor.
  - apply StronglySorted_inv in Hs as [Hs Hy].
    apply Forall_cons in Hid as [Hxy Hid].
    destruct (Sql.text_le (date x) (date y)) eqn:Hle.
    + constructor; [by constructor|].
      assert (∀ z, Sql.text_le (date y) (date z) = true → id x < id z →
                   listed_before x z) as Hbefore.
      { intros z Hyz Hxz.
        destruct (text_le_lt_eq _ _ (text_le_trans _ _ _ Hle Hyz)) as [?|?];
          [by left|by right]. }
      constructor.
      * apply Hbefore; [|done]. rewrite text_le_negb_lt, text_lt_irrefl. done.
      * rewrite Forall_forall in Hy, Hid |- *. intros z Hz.
        apply Hbefore; [|by apply Hid]. by apply listed_before_date_le, Hy.
    + constructor; [by apply IH|].
      rewrite Forall_forall. intros z [->|Hz]%elem_of_insert_by_date.
      * left. rewrite text_le_negb_lt in Hle. by apply negb_false_iff in Hle.
      * rewrite Forall_forall in Hy. by apply Hy.
Qed.

Lemma order_by_date_sorted l :
  StronglySorted (λ r1 r2, id r1 < id r2) l →
  StronglySorted listed_before (Sql.order_by_date l).
Proof.
  induction l as [|x l IH]; intros Hs; simpl; [constructor|].
  apply StronglySorted_inv in Hs as [Hs Hx].
  apply insert_by_date_sorted; [by apply IH|].
  rewrite Forall_forall in Hx |- *. intros y Hy. apply Hx.
  by rewrite <- (order_by_date_perm l).
Qed.

Lemma filter_rowid_order (f : Row → bool) (db : Store) :
  rowid_order db → rowid_order (List.filter f db).
Proof.
  unfold rowid_order. induction db as [|x db IH]; intros Hs; simpl; [done|].
  apply StronglySorted_inv in Hs as [Hs Hx].
  destruct (f x); [|by apply IH].
  constructor; [by apply IH|].
  rewrite Forall_forall in Hx |- *. intros y Hy. apply Hx.
  apply list_elem_of_In in Hy. apply list_elem_of_In.
  apply List.filter_In in Hy. tauto.
Qed.

Lemma elem_of_List_filter (f : Row → bool) (l : list Row) r :
  r ∈ List.filter f l ↔ r ∈ l ∧ f r = true.
Proof. rewrite !list_elem_of_In. apply List.filter_In. Qed.

End SqlFacts.

(** ** The stored form orders dates as the calendar does *)

Section CanonicalOrder.

Import DateText.

Lemma compare_digit_char a b (s s' : string) :
  String.compare (String (Datetime.digit_char a) s) (String (Datetime.digit_char b) s')
  = match a mod 10 ?= b mod 10 with
    | Eq => String.compare s s'
    | c => c
    end.
Proof.
  simpl. unfold Ascii.compare.
  pose proof (digit_char_code a) as Ha. pose proof (digit_char_code b) as Hb.
  unfold Py.code in Ha, Hb. rewrite Ha, Hb.
  pose proof (Z.mod_pos_bound a 10). pose proof (Z.mod_pos_bound b 10).
  destruct (Z.compare_spec (a mod 10) (b mod 10)) as [Heq|Hlt|Hgt].
  - rewrite Heq, N.compare_refl. done.
  - assert ((48 + Z.to_N (a mod 10) ?= 48 + Z.to_N (b mod 10))%N = Lt) as ->; [|done].
    apply N.compare_lt_iff. lia.
  - assert ((48 + Z.to_N (a mod 10) ?= 48 + Z.to_N (b mod 10))%N = Gt) as ->; [|done].
    apply N.compare_gt_iff. lia.
Qed.

Lemma compare_step (q q' r r' : Z) (c : comparison) :
  0 ≤ r < 10 → 0 ≤ r' < 10 →
  match q ?= q' with Eq => match r ?= r' with Eq => c | o => o end | o => o end
  = match 10 * q + r ?= 10 * q' + r' with Eq => c | o => o end.
Proof.
  intros Hr Hr'.
  destruct (Z.compare_spec q q'), (Z.compare_spec r r'),
    (Z.compare_spec (10 * q + r) (10 * q' + r')); try done; lia.
Qed.

Lemma compare_pad2 n n' (l l' : list ascii) :
  0 ≤ n ≤ 99 → 0 ≤ n' ≤ 99 →
  String.compare (text (Datetime.pad2 n ++ l)) (text (Datetime.pad2 n' ++ l'))
  = match n ?= n' with
    | Eq => String.compare (text l) (text l')
    | c => c
    end.
Proof.
  intros Hn Hn'. unfold Datetime.pad2, text. cbn [app string_of_list_ascii].
  rewrite !compare_digit_char.
  rewrite (Z.mod_small (n / 10)), (Z.mod_small (n' / 10))
    by (Z.div_mod_to_equations; lia).
  rewrite compare_step by (apply Z.mod_pos_bound; lia).
  by rewrite <- !Z.div_mod by lia.
Qed.

Lemma compare_pad4 n n' (l l' : list ascii) :
  0 ≤ n ≤ 9999 → 0 ≤ n' ≤ 9999 →
  String.compare (text (Datetime.pad4 n ++ l)) (text (Datetime.pad4 n' ++ l'))
  = match n ?= n' with
    | Eq => String.compare (text l) (text l')
    | c => c
    end.
Proof.
  intros Hn Hn'. unfold Datetime.pad4, text. cbn [app string_of_list_ascii].
  rewrite !compare_digit_char.
  rewrite (Z.mod_small (n / 1000)), (Z.mod_small (n' / 1000))
    by (Z.div_mod_to_equations; lia).
  replace (n / 1000) with (n / 100 / 10) by (rewrite Z.div_div by lia; reflexivity).
  replace (n' / 1000) with (n' / 100 / 10) by (rewrite Z.div_div by lia; reflexivity).
  rewrite compare_step by (apply Z.mod_pos_bound; lia).
  rewrite <- !Z.div_mod by lia.
  replace (n / 100) with (n / 10 / 10) by (rewrite Z.div_div by lia; reflexivity).
  replace (n' / 100) with (n' / 10 / 10) by (rewrite Z.div_div by lia; reflexivity).
  rewrite compare_step by (apply Z.mod_pos_bound; lia).
  rewrite <- !Z.div_mod by lia.
  rewrite compare_step by (apply Z.mod_pos_bound; lia).
  by rewrite <- !Z.div_mod by lia.
Qed.

(** For real dates, the text order of the stored forms is the order of
    the days. *)
Lemma canonical_lt_iff y m d clock :
  real_date y m d → real_date (year clock) (month clock) (day clock) →
  Sql.text_lt (canonical y m d) (Datetime.strftime_Ymd clock) = true
  ↔ day_before y m d clock.
Proof.
  intros (Hy & Hm & Hd) (Hy' & Hm' & Hd').
  pose proof (days_in_month_le_31 y m).
  pose proof (days_in_month_le_31 (year clock) (month clock)).
  unfold Sql.text_lt, String.ltb, canonical, Datetime.strftime_Ymd, day_before.
  simpl year; simpl month; simpl day.
  rewrite compare_pad4 by lia.
  change (text ("-"%char :: ?a)) with (String "-" (text a)).
  cbn [String.compare]. change (Ascii.compare "-" "-") with Eq. cbv iota.
  rewrite compare_pad2 by lia.
  change (text ("-"%char :: ?a)) with (String "-" (text a)).
  cbn [String.compare]. change (Ascii.compare "-" "-") with Eq. cbv iota.
  rewrite <- (app_nil_r (Datetime.pad2 d)), <- (app_nil_r (Datetime.pad2 (day clock))).
  rewrite compare_pad2 by lia. simpl.
  destruct (Z.compare_spec y (year clock)), (Z.compare_spec m (month clock)),
    (Z.compare_spec d (day clock)); split; try done; lia.
Qed.

End CanonicalOrder.

(** ** Retention and listing *)

Section Listing.

Lemma filter_filter_same (f : Row → bool) (l : list Row) :
  List.filter f (List.filter f l) = List.filter f l.
Proof.
  induction l as [|x l IH]; simpl; [done|].
  destruct (f x) eqn:Hx; simpl; [by rewrite Hx, IH|done].
Qed.

Lemma filter_all (l : list Row) : List.filter (λ _, true) l = l.
Proof. induction l as [|x l IH]; simpl; by f_equal. Qed.

Lemma cleanup_keeps (clock : datetime) (db : Store) r :
  r ∈ cleanup_past_events clock db
  ↔ r ∈ db ∧ ¬ is_past (Datetime.strftime_Ymd clock) r.
Proof.
  unfold cleanup_past_events, Sql.delete_where_date_lt, is_past.
  rewrite elem_of_List_filter, negb_true_iff, not_true_iff_false. done.
Qed.

(** For a row that stores a real date under a real clock day, "past" is
    the calendar's "before today". *)
Lemma cleanup_keeps_calendar (clock : datetime) (db : Store) r y m d :
  date r = canonical y m d →
  DateText.real_date y m d →
  DateText.real_date (year clock) (month clock) (day clock) →
  r ∈ cleanup_past_events clock db ↔ r ∈ db ∧ ¬ day_before y m d clock.
Proof.
  intros Hdate Hreal Hclock. rewrite cleanup_keeps. unfold is_past.
  by rewrite Hdate, canonical_lt_iff.
Qed.

(** C4. After the cleanup no remaining event has a date strictly below
    the canonical form of the current day, every event whose date is at
    or above it is retained (the table keeps exactly those rows, in
    their order), and a second cleanup at the same clock removes
    nothing. The cutoff is the current day: at a clock reading of a real
    day it reads back as the day of the clock, and an event stored under
    a real date is kept exactly when that date is not before that day. *)
Theorem cleanup_past_events_purges (clock : datetime) (db : Store) :
  (∀ r, r ∈ cleanup_past_events clock db →
        ¬ is_past (Datetime.strftime_Ymd clock) r)
  ∧ (∀ r, r ∈ db → Sql.text_le (Datetime.strftime_Ymd clock) (date r) = true →
          r ∈ cleanup_past_events clock db)
  ∧ cleanup_past_events clock db
    = List.filter (λ r, Sql.text_le (Datetime.strftime_Ymd clock) (date r)) db
  ∧ cleanup_past_events clock (cleanup_past_events clock db)
    = cleanup_past_events clock db
  ∧ (real_clock clock →
     is_canonical (Datetime.strftime_Ymd clock)
       (year clock) (month clock) (day clock)
     ∧ ∀ r y m d, date r = canonical y m d → DateText.real_date y m d →
         (r ∈ cleanup_past_events clock db ↔ r ∈ db ∧ ¬ day_before y m d clock)).
Proof.
  split; [|split; [|split; [|split]]].
  - intros r Hr. by apply cleanup_keeps in Hr as [_ ?].
  - intros r Hr Hle. apply cleanup_keeps. split; [done|].
    unfold is_past. rewrite text_le_negb_lt in Hle.
    by destruct (Sql.text_lt (date r) _).
  - unfold cleanup_past_events, Sql.delete_where_date_lt.
    apply List.filter_ext. intros r. by rewrite text_le_negb_lt.
  - unfold cleanup_past_events, Sql.delete_where_date_lt.
    apply filter_filter_same.
  - intros Hclock. split.
    + by apply (canonical_is_canonical (year clock) (month clock) (day clock)).
    + intros r y m d Hdate Hreal. by apply cleanup_keeps_calendar.
Qed.

Lemma cleanup_past_events_purges_witness :
  let clock := mkDatetime 2025 6 15 8 0 0 0 in
  let kept := mkRow 2 "Dentist" "2025-06-15" "" "" "2025-06-01 10:00:00" in
  let gone := mkRow 1 "Picnic day" "2025-06-14" "" "" "2025-06-01 09:00:00" in
  kept ∈ cleanup_past_events clock [gone; kept]
  ∧ ¬ gone ∈ cleanup_past_events clock [gone; kept]
  ∧ is_canonical "2025-06-15" 2025 6 15.
Proof.
  intros clock kept gone.
  assert (real_clock clock) as Hclock.
  { unfold real_clock, DateText.real_date. vm_compute. intuition discriminate. }
  destruct (cleanup_past_events_purges clock [gone; kept])
    as (_ & _ & _ & _ & Hday).
  destruct (Hday Hclock) as [Hcut Hcal].
  split; [|split; [|exact Hcut]].
  - apply (Hcal kept 2025 6 15); [reflexivity| |].
    + unfold DateText.real_date. vm_compute. intuition discriminate.
    + split; [apply elem_of_cons; right; apply elem_of_cons; by left|].
      unfold day_before. simpl. lia.
  - intros Hin. apply (Hcal gone 2025 6 14) in Hin as [_ Hnot]; [|reflexivity|].
    + apply Hnot. unfold day_before. simpl. lia.
    + unfold DateText.real_date. vm_compute. intuition discriminate.
Defined.

(** C3, as stated, fails: the month filter is handed to [LIKE], where
    [_] and [%] are wildcards; "2025-0_" lists an event of 2025-06-20
    although that date does not start with "2025-0_". *)
Lemma get_events_wildcard_counterexample :
  ¬ (∀ (month : option string) (clock : datetime) (db : Store),
       ∃ rows, (get_events month clock db).2 = JsonRows rows
         ∧ ∀ r, r ∈ rows ↔
                r ∈ cleanup_past_events clock db ∧ in_month month r = true).
Proof.
  intros H.
  set (r := mkRow 1 "Team meeting" "2025-06-20" "" "" "2025-06-01 09:00:00").
  destruct (H (Some "2025-0_") (mkDatetime 2025 6 15 0 0 0 0) [r])
    as (rows & Hrows & Hiff).
  vm_compute in Hrows. injection Hrows as <-.
  assert (r ∈ [r]) as Hin by (apply elem_of_cons; by left).
  apply Hiff in Hin as [_ Hpre]. vm_compute in Hpre. discriminate Hpre.
Qed.

(** C3, amended. On a table in rowid order and with a month filter that
    holds no [LIKE] wildcard, no ASCII letter and no U+0000, and whose
    pattern is within the length limit of [LIKE] (any filter YYYY-MM is
    one), the listing first purges the past events, leaving the table
    cleaned, and returns exactly the remaining events whose date starts
    with the filter (all of them without a filter), ascending by date
    and, for equal dates, by id; no returned event is past. *)
Theorem get_events_lists_month (month : option string) (clock : datetime)
    (db : Store) :
  rowid_order db →
  (∀ m, month = Some m → plain_filter m) →
  ∃ rows,
    get_events month clock db = (cleanup_past_events clock db, JsonRows rows)
    ∧ rows ≡ₚ List.filter (in_month month) (cleanup_past_events clock db)
    ∧ StronglySorted listed_before rows
    ∧ ∀ r, r ∈ rows → ¬ is_past (Datetime.strftime_Ymd clock) r.
Proof.
  intros Hdb Hplain. unfold get_events.
  set (db' := cleanup_past_events clock db).
  assert (rowid_order db') as Hdb' by (by apply filter_rowid_order).
  assert (∀ f, ∀ r, r ∈ Sql.order_by_date (List.filter f db') →
               ¬ is_past (Datetime.strftime_Ymd clock) r) as Hfresh.
  { intros f r. rewrite order_by_date_perm, elem_of_List_filter.
    intros [Hr _]. by apply cleanup_keeps in Hr as [_ ?]. }
  assert (∃ f, (∀ r, f r = in_month month r)
               ∧ match month with
                 | Some m => if bool_decide (m = "") then Some (Sql.select_all db')
                             else Sql.select_where_date_like (m ++ "%")%string db'
                 | None => Some (Sql.select_all db')
                 end = Some (Sql.order_by_date (List.filter f db')))
    as (f & Hf & ->).
  { destruct month as [m|].
    - case_bool_decide as Hm.
      + subst m. exists (λ _, true).
        split; [intros r; simpl; by destruct (date r)|].
        by rewrite filter_all.
      + exists (λ r, Sql.like (chars (m ++ "%")%string) (chars (date r))).
        split; [intros r; simpl; by apply like_prefix, Hplain|].
        apply select_where_date_like_ok. by apply (Hplain m).
    - exists (λ _, true). split; [done|]. by rewrite filter_all. }
  eexists. split; [done|].
  rewrite (List.filter_ext _ _ Hf) in *.
  split; [apply order_by_date_perm|].
  split; [by apply order_by_date_sorted, filter_rowid_order|].
  apply Hfresh.
Qed.

Lemma get_events_lists_month_witness :
  let db := [mkRow 1 "Team meeting" "2025-06-20" "" "" "2025-06-01 09:00:00";
             mkRow 2 "Old review" "2025-06-10" "" "" "2025-06-01 09:05:00";
             mkRow 3 "Board call" "2025-06-20" "" "" "2025-06-02 11:00:00";
             mkRow 4 "Dentist" "2025-06-18" "" "" "2025-06-03 12:00:00";
             mkRow 5 "Holiday" "2025-07-01" "" "" "2025-06-03 12:30:00"] in
  ∃ rows,
    get_events (Some "2025-06") (mkDatetime 2025 6 15 8 0 0 0) db
    = (cleanup_past_events (mkDatetime 2025 6 15 8 0 0 0) db, JsonRows rows)
    ∧ rows ≡ₚ List.filter (in_month (Some "2025-06"))
                (cleanup_past_events (mkDatetime 2025 6 15 8 0 0 0) db)
    ∧ StronglySorted listed_before rows
    ∧ ∀ r, r ∈ rows → ¬ is_past "2025-06-15" r.
Proof.
  intros db.
  apply (get_events_lists_month (Some "2025-06") (mkDatetime 2025 6 15 8 0 0 0) db).
  - unfold rowid_order, db. repeat constructor; simpl; lia.
  - intros m [= <-]. split; reflexivity.
Defined.

End Listing.

(** ** The partial update *)

Section Update.

Implicit Types (data : gmap string string) (db : Store) (r : Row).

(** *** Validation *)

Lemma check_title_error data t :
  data !! "title" = Some t → (validate_title t).1 = false →
  ∃ e, check_title data = Some e.
Proof.
  intros Ht Hv. unfold check_title. rewrite Ht.
  destruct (validate_title t) as [[] e]; [done|eauto].
Qed.

Lemma check_title_ok data :
  (∀ t, data !! "title" = Some t → (validate_title t).1 = true) →
  check_title data = None.
Proof.
  intros H. unfold check_title. destruct (data !! "title") as [t|]; [|done].
  specialize (H t eq_refl). by destruct (validate_title t) as [[] e].
Qed.

Lemma check_date_error data clock d :
  data !! "date" = Some d → (validate_date d clock).1 = false →
  ∃ e, check_date data clock = inl e.
Proof.
  intros Hd Hv. unfold check_date. rewrite Hd.
  destruct (validate_date d clock) as [[] e]; [done|eauto].
Qed.

(** The date step leaves every key but ["date"] as it was, and never
    adds or removes a key. *)
Lemma check_date_frame data clock data' :
  check_date data clock = inr data' →
  (∀ f, f ≠ "date" → data' !! f = data !! f)
  ∧ (∀ f, is_Some (data' !! f) ↔ is_Some (data !! f)).
Proof.
  unfold check_date. destruct (data !! "date") as [d|] eqn:Hd.
  - destruct (validate_date d clock) as [[] e]; [|done].
    intros [= <-]. split.
    + intros f Hf. by rewrite lookup_insert_ne.
    + intros f. destruct (decide (f = "date")) as [->|Hf].
      * rewrite lookup_insert_eq, Hd. split; eauto.
      * by rewrite lookup_insert_ne.
  - intros [= <-]. done.
Qed.

Lemma check_date_ok data clock :
  (∀ d, data !! "date" = Some d → (validate_date d clock).1 = true) →
  ∃ data', check_date data clock = inr data'.
Proof.
  intros H. unfold check_date. destruct (data !! "date") as [d|]; [|eauto].
  specialize (H d eq_refl). destruct (validate_date d clock) as [[] e]; [eauto|done].
Qed.

Lemma check_notes_error data n :
  data !! "notes" = Some n → (validate_notes n).1 = false →
  ∃ e, check_notes data = Some e.
Proof.
  intros Hn Hv. unfold check_notes. rewrite Hn.
  case_bool_decide as He; [by subst n|].
  destruct (validate_notes n) as [[] e]; [done|eauto].
Qed.

Lemma check_notes_ok data :
  (∀ n, data !! "notes" = Some n → (validate_notes n).1 = true) →
  check_notes data = None.
Proof.
  intros H. unfold check_notes. destruct (data !! "notes") as [n|]; [|done].
  specialize (H n eq_refl). case_bool_decide; [done|].
  by destruct (validate_notes n) as [[] e].
Qed.

(** Validation either stops with a 400 response or hands on the body. *)
Lemma validate_update_shape data clock :
  (∃ e, validate_update data clock = inl (JsonError 400 e))
  ∨ (∃ data', validate_update data clock = inr data'
              ∧ check_date data clock = inr data').
Proof.
  unfold validate_update. destruct (check_title data); [left; eauto|].
  destruct (check_date data clock) as [e|data']; [left; eauto|].
  destruct (check_notes data'); [left; eauto|right; eauto].
Qed.

Lemma validate_update_invalid data clock :
  invalid_field data clock →
  ∃ e, validate_update data clock = inl (JsonError 400 e).
Proof.
  intros Hbad. unfold validate_update.
  destruct (check_title data) as [e|] eqn:Ht; [eauto|].
  destruct (check_date data clock) as [e|data'] eqn:Hd; [eauto|].
  destruct (check_notes data') as [e|] eqn:Hn; [eauto|]. exfalso.
  destruct Hbad as [(t & Hl & Hv)|[(d & Hl & Hv)|(n & Hl & Hv)]].
  - destruct (check_title_error _ _ Hl Hv). congruence.
  - destruct (check_date_error _ clock _ Hl Hv). congruence.
  - apply check_date_frame in Hd as [Hd _].
    rewrite <- (Hd "notes") in Hl by done.
    destruct (check_notes_error _ _ Hl Hv). congruence.
Qed.

Lemma validate_update_valid data clock :
  valid_fields data clock →
  ∃ data', validate_update data clock = inr data'
           ∧ check_date data clock = inr data'.
Proof.
  intros (Ht & Hd & Hn). unfold validate_update.
  rewrite (check_title_ok _ Ht).
  destruct (check_date_ok _ _ Hd) as [data' Hdate]. rewrite Hdate.
  rewrite check_notes_ok; [eauto|].
  intros n Hl. apply Hn. apply check_date_frame in Hdate as [Hf _].
  by rewrite <- (Hf "notes").
Qed.

(** *** The UPDATE statement *)

Lemma set_column_id f v r : id (set_column f v r) = id r.
Proof. unfold set_column. by repeat destruct (String.eqb _ _). Qed.

Lemma set_column_created_at f v r : created_at (set_column f v r) = created_at r.
Proof. unfold set_column. by repeat destruct (String.eqb _ _). Qed.

Lemma set_column_other f v g r : g ≠ f → column g (set_column f v r) = column g r.
Proof.
  intros Hne. unfold set_column, column.
  destruct (String.eqb_spec f "title") as [->|?];
    [destruct (String.eqb_spec g "title"); [done|by simpl]|].
  destruct (String.eqb_spec f "date") as [->|?];
    [destruct (String.eqb_spec g "date"); [done|by simpl]|].
  destruct (String.eqb_spec f "location") as [->|?];
    [destruct (String.eqb_spec g "location"); [done|by simpl]|].
  destruct (String.eqb_spec f "notes") as [->|?];
    [destruct (String.eqb_spec g "notes"); [done|by simpl]|].
  done.
Qed.

Lemma assign_frame assignments : ∀ r,
  id (assign r assignments) = id r
  ∧ created_at (assign r assignments) = created_at r
  ∧ ∀ g, g ∉ assignments.*1 → column g (assign r assignments) = column g r.
Proof.
  unfold assign. induction assignments as [|[f v] l IH]; intros r; simpl; [done|].
  destruct (IH (set_column f v r)) as (Hid & Hcr & Hcol).
  rewrite Hid, Hcr, set_column_id, set_column_created_at.
  repeat split. intros g [Hg Hl]%not_elem_of_cons.
  rewrite Hcol by done. by apply set_column_other.
Qed.

Lemma sql_update_frame assignments event_id db :
  Forall2 (λ r r',
             id r' = id r ∧ created_at r' = created_at r
             ∧ (id r ≠ event_id → r' = r)
             ∧ ∀ g, g ∉ assignments.*1 → column g r' = column g r)
          db (sql_update assignments event_id db).
Proof.
  unfold sql_update. induction db as [|r db IH]; simpl; constructor; [|done].
  case_bool_decide as Hid; [|done].
  destruct (assign_frame assignments r) as (? & ? & ?).
  repeat split; try done.
Qed.

Lemma sql_update_absent assignments event_id db :
  (∀ r, r ∈ db → id r ≠ event_id) → sql_update assignments event_id db = db.
Proof.
  unfold sql_update. induction db as [|r db IH]; intros Hno; simpl; [done|].
  rewrite IH by (intros r' Hr'; apply Hno; by right).
  rewrite bool_decide_eq_false_2; [done|]. apply Hno. by left.
Qed.

Lemma select_by_id_absent event_id db :
  (∀ r, r ∈ db → id r ≠ event_id) → Sql.select_by_id event_id db = None.
Proof.
  unfold Sql.select_by_id. destruct (Sql.bindable event_id); [|done].
  induction db as [|r db IH]; intros Hno; simpl; [done|].
  rewrite bool_decide_eq_false_2 by (apply Hno; by left).
  apply IH. intros r' Hr'. apply Hno. by right.
Qed.

Lemma assignments_of_fields data g :
  g ∈ (assignments_of data).*1 → g ∈ updatable ∧ is_Some (data !! g).
Proof.
  unfold assignments_of. rewrite list_elem_of_fmap.
  intros ([f v] & -> & Hin). apply list_elem_of_omap in Hin as (f' & Hf' & Hl).
  destruct (data !! f') as [v'|] eqn:E; simplify_eq/=. eauto.
Qed.

Lemma assignments_of_nil data :
  assignments_of data = [] ↔ has_updatable data = false.
Proof.
  unfold assignments_of, has_updatable, updatable. simpl.
  destruct (data !! "title"), (data !! "date"), (data !! "location"),
    (data !! "notes"); simpl; split; try done;
    repeat (rewrite bool_decide_eq_true_2 by eauto); try done;
    repeat (rewrite bool_decide_eq_false_2 by (by intros [? [=]])); done.
Qed.

Lemma has_updatable_ext data data' :
  (∀ f, is_Some (data' !! f) ↔ is_Some (data !! f)) →
  has_updatable data' = has_updatable data.
Proof.
  intros H. unfold has_updatable. induction updatable as [|f l IH]; simpl; [done|].
  rewrite IH. f_equal. apply bool_decide_ext, H.
Qed.

(** [update_event] after a successful validation. *)
Lemma update_event_validated event_id data clock db data' :
  validate_update data clock = inr data' →
  update_event event_id data clock db
  = if has_updatable data'
    then
      if negb (Sql.bindable event_id) then (db, JsonError 500 msg_overflow)
      else
        let db' := sql_update (assignments_of data') event_id db in
        match Sql.select_by_id event_id db' with
        | Some row => (db', JsonRow row)
        | None => (db', JsonError 404 "Event not found")
        end
    else (db, JsonError 400 "No fields to update").
Proof.
  intros Hv. unfold update_event. rewrite Hv.
  destruct (assignments_of data') as [|a l] eqn:Ha.
  - apply assignments_of_nil in Ha. by rewrite Ha.
  - destruct (has_updatable data') eqn:Hu; [done|].
    apply assignments_of_nil in Hu. congruence.
Qed.

End Update.

Section UpdateClaims.

Implicit Types (data : gmap string string) (db : Store) (r : Row).

(** C5. When some field present in the update fails its validator, the
    update answers with a 400 error and the table, hence the stored
    event, is exactly as before; a note of 24 words is refused with the
    too-many-words message and nothing is written. *)
Theorem update_event_invalid_unchanged (event_id : Z) data
    (clock : datetime) db :
  (invalid_field data clock →
   ∃ e, update_event event_id data clock db = (db, JsonError 400 e))
  ∧ update_event event_id {[ "notes" := twenty_four_words ]} clock db
    = (db, JsonError 400 (msg_notes_long 24)).
Proof.
  split; [|reflexivity].
  intros (e & He)%validate_update_invalid. exists e.
  unfold update_event. by rewrite He.
Qed.

Lemma update_event_invalid_unchanged_witness :
  let db := [mkRow 7 "Team meeting" "2025-06-20" "Room 2" "" "2025-06-01 09:00:00"] in
  ∃ e, update_event 7 {[ "title" := "New title"; "date" := "14/06/2025" ]}
         (mkDatetime 2025 6 15 8 0 0 0) db
       = (db, JsonError 400 e).
Proof.
  intros db.
  apply (update_event_invalid_unchanged 7
           {[ "title" := "New title"; "date" := "14/06/2025" ]}
           (mkDatetime 2025 6 15 8 0 0 0) db).
  right; left. exists "14/06/2025". split; reflexivity.
Defined.

(** C6, as stated, fails: an update without any updatable field passes
    validation, yet for an absent id it is answered with the 400 error
    "No fields to update" rather than with not-found. *)
Lemma update_event_no_fields_counterexample :
  ¬ (∀ (event_id : Z) data (clock : datetime) db,
       (∀ r, r ∈ db → id r ≠ event_id) →
       valid_fields data clock →
       update_event event_id data clock db
       = (db, JsonError 404 "Event not found")).
Proof.
  intros H.
  specialize (H 1 ∅ (mkDatetime 2025 6 15 0 0 0 0) []).
  assert (update_event 1 ∅ (mkDatetime 2025 6 15 0 0 0 0) []
          = ([], JsonError 404 "Event not found")) as Hv.
  { apply H; [intros r Hr; inversion Hr|].
    repeat split; intros ? Hl; by rewrite lookup_empty in Hl. }
  vm_compute in Hv. discriminate Hv.
Qed.

(** C6, amended. For an id that is not in the table and an update whose
    present fields all pass validation, the table is unchanged and the
    answer is: the 400 error "No fields to update" when the update names
    none of title, date, location, notes; otherwise not-found (404) when
    the id is a 64-bit integer, and the 500 error of the failed binding
    when it is larger. With the title "Valid Title" and such an id it is
    not-found. *)
Theorem update_event_not_found (event_id : Z) data (clock : datetime) db :
  (∀ r, r ∈ db → id r ≠ event_id) →
  valid_fields data clock →
  update_event event_id data clock db
  = (db, if has_updatable data
         then if Sql.bindable event_id
              then JsonError 404 "Event not found"
              else JsonError 500 msg_overflow
         else JsonError 400 "No fields to update").
Proof.
  intros Habsent (data' & Hv & Hd)%validate_update_valid.
  rewrite (update_event_validated _ _ _ _ _ Hv).
  apply check_date_frame in Hd as [_ Hdom].
  rewrite (has_updatable_ext _ _ Hdom).
  destruct (has_updatable data); [|done].
  destruct (Sql.bindable event_id); [|done]. simpl.
  rewrite sql_update_absent by done. by rewrite select_by_id_absent.
Qed.

Lemma update_event_not_found_witness :
  let db := [mkRow 7 "Team meeting" "2025-06-20" "Room 2" "" "2025-06-01 09:00:00"] in
  update_event 8 {[ "title" := "Valid Title" ]} (mkDatetime 2025 6 15 8 0 0 0) db
  = (db, JsonError 404 "Event not found").
Proof.
  intros db.
  rewrite (update_event_not_found 8 {[ "title" := "Valid Title" ]}
             (mkDatetime 2025 6 15 8 0 0 0) db); [reflexivity| |].
  - intros r [->|Hr]%elem_of_cons; [simpl; lia|inversion Hr].
  - repeat split; intros v Hl.
    + apply lookup_singleton_Some in Hl as [_ <-]. reflexivity.
    + apply lookup_singleton_Some in Hl as [[=] _].
    + apply lookup_singleton_Some in Hl as [[=] _].
Defined.

Lemma allowed_part_lookup data f :
  f ∈ updatable → allowed_part data !! f = data !! f.
Proof.
  intros Hf. unfold allowed_part. destruct (data !! f) as [v|] eqn:E.
  - by apply map_lookup_filter_Some.
  - apply map_lookup_filter_None. by left.
Qed.

Lemma updatable_title : "title" ∈ updatable.
Proof. apply elem_of_cons; by left. Qed.
Lemma updatable_date : "date" ∈ updatable.
Proof. do 1 (apply elem_of_cons; right). apply elem_of_cons; by left. Qed.
Lemma updatable_location : "location" ∈ updatable.
Proof. do 2 (apply elem_of_cons; right). apply elem_of_cons; by left. Qed.
Lemma updatable_notes : "notes" ∈ updatable.
Proof. do 3 (apply elem_of_cons; right). apply elem_of_cons; by left. Qed.

Lemma check_date_agree data1 data2 clock :
  agree data1 data2 →
  match check_date data1 clock, check_date data2 clock with
  | inl e1, inl e2 => e1 = e2
  | inr d1, inr d2 => agree d1 d2
  | _, _ => False
  end.
Proof.
  intros Hag. unfold check_date. rewrite (Hag _ updatable_date).
  destruct (data2 !! "date") as [d|]; [|done].
  destruct (validate_date d clock) as [[] df]; [|done].
  intros f Hf. destruct (decide (f = "date")) as [->|Hne].
  - by rewrite !lookup_insert_eq.
  - rewrite !lookup_insert_ne by done. by apply Hag.
Qed.

Lemma assignments_of_agree data1 data2 :
  agree data1 data2 → assignments_of data1 = assignments_of data2.
Proof.
  intros Hag. unfold assignments_of, updatable. simpl.
  by rewrite (Hag _ updatable_title), (Hag _ updatable_date),
    (Hag _ updatable_location), (Hag _ updatable_notes).
Qed.

(** Bodies that agree on the updatable keys are handled alike. *)
Lemma update_event_agree event_id data1 data2 clock db :
  agree data1 data2 →
  update_event event_id data1 clock db = update_event event_id data2 clock db.
Proof.
  intros Hag. unfold update_event, validate_update.
  assert (check_title data1 = check_title data2) as ->
    by (unfold check_title; by rewrite (Hag _ updatable_title)).
  destruct (check_title data2); [done|].
  pose proof (check_date_agree _ _ clock Hag) as Hd.
  destruct (check_date data1 clock) as [e1|d1],
    (check_date data2 clock) as [e2|d2]; try done; [by subst|].
  assert (check_notes d1 = check_notes d2) as ->
    by (unfold check_notes; by rewrite (Hd _ updatable_notes)).
  destruct (check_notes d2); [done|].
  by rewrite (assignments_of_agree _ _ Hd).
Qed.

(** C10. An update can change only the title, date, location and notes
    of the targeted record: every row keeps its id and its creation
    time, rows with another id are unchanged, a column whose name is not
    a key of the update keeps its value, and keys outside the four
    names play no part in what the update does or answers. *)
Theorem update_event_frame (event_id : Z) data (clock : datetime) db :
  Forall2 (λ r r',
             id r' = id r ∧ created_at r' = created_at r
             ∧ (id r ≠ event_id → r' = r)
             ∧ ∀ f, data !! f = None → column f r' = column f r)
          db (update_event event_id data clock db).1
  ∧ update_event event_id (allowed_part data) clock db
    = update_event event_id data clock db.
Proof.
  split; [|apply update_event_agree; intros f Hf; by apply allowed_part_lookup].
  assert (Forall2 (λ r r', id r' = id r ∧ created_at r' = created_at r
                     ∧ (id r ≠ event_id → r' = r)
                     ∧ ∀ f, data !! f = None → column f r' = column f r) db db)
    as Hsame by (apply Forall2_same_length_lookup_2; [done|];
                 intros i r r' ? ?; by simplify_eq).
  destruct (validate_update_shape data clock) as [[e He]|(data' & Hv & Hd)].
  - unfold update_event. by rewrite He.
  - rewrite (update_event_validated _ _ _ _ _ Hv).
    destruct (has_updatable data'); [|done].
    assert (Forall2 (λ r r', id r' = id r ∧ created_at r' = created_at r
                     ∧ (id r ≠ event_id → r' = r)
                     ∧ ∀ f, data !! f = None → column f r' = column f r)
              db (sql_update (assignments_of data') event_id db)) as Hupd.
    { eapply Forall2_impl; [apply sql_update_frame|].
      intros r r' (? & ? & ? & Hcol). repeat split; try done.
      intros f Hnone. apply Hcol. intros [_ Hsome]%assignments_of_fields.
      apply check_date_frame in Hd as [_ Hdom]. apply Hdom in Hsome.
      rewrite Hnone in Hsome. by destruct Hsome. }
    destruct (Sql.bindable event_id); [|done].
    simpl. by destruct (Sql.select_by_id _ _).
Qed.

End UpdateClaims.

(** * Further properties: create, read, delete and the server as a whole *)

(** ** Lookups by id *)

Section Lookup.

Implicit Types (db : Store) (r : Row).

Lemma select_by_id_Some i db r :
  Sql.select_by_id i db = Some r → r ∈ db ∧ id r = i.
Proof.
  unfold Sql.select_by_id. destruct (Sql.bindable i); [|done].
  induction db as [|x db IH]; simpl; [done|].
  case_bool_decide as Hx.
  - intros [= <-]. split; [by left|done].
  - intros [? ?]%IH. split; [by right|done].
Qed.

(** Only an id of 64 bits is ever found. *)
Lemma select_by_id_bindable i db r :
  Sql.select_by_id i db = Some r → Sql.bindable i = true.
Proof. unfold Sql.select_by_id. by destruct (Sql.bindable i). Qed.

Lemma select_by_id_None i db :
  Sql.bindable i = true →
  Sql.select_by_id i db = None ↔ ∀ r, r ∈ db → id r ≠ i.
Proof.
  intros Hb. split; [|apply select_by_id_absent].
  unfold Sql.select_by_id. rewrite Hb. induction db as [|x db IH]; simpl.
  - intros _ r Hr. inversion Hr.
  - case_bool_decide as Hx; [done|].
    intros Hn r [->|Hr]%elem_of_cons; [done|by apply IH].
Qed.

Lemma rowid_order_cons r db :
  rowid_order (r :: db) ↔ (∀ x, x ∈ db → id r < id x) ∧ rowid_order db.
Proof.
  unfold rowid_order. split.
  - intros [Hs Hr]%StronglySorted_inv. split; [|done].
    by rewrite Forall_forall in Hr.
  - intros [Hr Hs]. constructor; [done|]. by rewrite Forall_forall.
Qed.

(** In a table whose ids are distinct, the lookup finds every row. *)
Lemma select_by_id_elem db r :
  rowid_order db → Sql.bindable (id r) = true → r ∈ db →
  Sql.select_by_id (id r) db = Some r.
Proof.
  unfold Sql.select_by_id. intros Hs -> Hr. revert Hs Hr.
  induction db as [|x db IH]; intros Hs Hr; [inversion Hr|].
  apply rowid_order_cons in Hs as [Hx Hs]. simpl.
  apply elem_of_cons in Hr as [->|Hr].
  - by rewrite bool_decide_eq_true_2.
  - rewrite bool_decide_eq_false_2; [by apply IH|].
    specialize (Hx r Hr). lia.
Qed.

Lemma select_by_id_app_new i db r :
  Sql.bindable i = true → (∀ x, x ∈ db → id x ≠ i) → id r = i →
  Sql.select_by_id i (db ++ [r]) = Some r.
Proof.
  intros Hb Hdb Hr. unfold Sql.select_by_id. rewrite Hb.
  induction db as [|x db IH]; simpl.
  - by rewrite bool_decide_eq_true_2.
  - rewrite bool_decide_eq_false_2 by (apply Hdb; by left).
    apply IH. intros y Hy. apply Hdb. by right.
Qed.

Lemma select_by_id_app_old i db r :
  id r ≠ i → Sql.select_by_id i (db ++ [r]) = Sql.select_by_id i db.
Proof.
  intros Hr. unfold Sql.select_by_id. destruct (Sql.bindable i); [|done].
  induction db as [|x db IH]; simpl.
  - by rewrite bool_decide_eq_false_2.
  - by rewrite IH.
Qed.

Lemma select_by_id_map (g : Row → Row) i db :
  (∀ r, id (g r) = id r) →
  Sql.select_by_id i (map g db) = g <$> Sql.select_by_id i db.
Proof.
  intros Hg. unfold Sql.select_by_id. destruct (Sql.bindable i); [|done].
  induction db as [|x db IH]; simpl; [done|].
  rewrite Hg. by case_bool_decide.
Qed.

Lemma max_rowid_ge db r : r ∈ db → id r ≤ max_rowid db.
Proof.
  induction db as [|x db IH]; intros Hr; [inversion Hr|].
  simpl. apply elem_of_cons in Hr as [->|Hr]; [lia|].
  specialize (IH Hr). lia.
Qed.

Lemma next_rowid_fresh (db : Database) r : r ∈ rows db → id r < next_rowid db.
Proof. intros Hr%max_rowid_ge. unfold next_rowid. lia. Qed.

Lemma max_rowid_nonneg db : 0 ≤ max_rowid db.
Proof. induction db as [|x db IH]; simpl; lia. Qed.

Lemma next_rowid_bindable (db : Database) :
  next_rowid db ≤ MAX_ROWID → Sql.bindable (next_rowid db) = true.
Proof.
  intros Hmax. pose proof (max_rowid_nonneg (rows db)).
  unfold Sql.bindable, Sql.INT64_MAX, next_rowid, MAX_ROWID in *.
  apply andb_true_iff. rewrite !Z.leb_le. lia.
Qed.

Lemma elem_of_sql_delete i db r :
  r ∈ sql_delete i db ↔ r ∈ db ∧ id r ≠ i.
Proof.
  unfold sql_delete. rewrite elem_of_List_filter, negb_true_iff.
  by rewrite bool_decide_eq_false.
Qed.

Lemma rowid_order_snoc db r :
  rowid_order db → (∀ x, x ∈ db → id x < id r) → rowid_order (db ++ [r]).
Proof.
  induction db as [|x db IH]; intros Hs Hr; simpl.
  - apply rowid_order_cons. split; [|constructor]. intros y Hy. inversion Hy.
  - apply rowid_order_cons in Hs as [Hx Hs]. apply rowid_order_cons. split.
    + intros y [Hy|Hy]%elem_of_app; [by apply Hx|].
      apply list_elem_of_singleton in Hy as ->. apply Hr. by left.
    + apply IH; [done|]. intros y Hy. apply Hr. by right.
Qed.

Lemma rowid_order_same_ids (db db' : Store) :
  Forall2 (λ r r', id r' = id r) db db' → rowid_order db → rowid_order db'.
Proof.
  induction 1 as [|r r' db db' Hid Hrest IH]; [done|].
  intros [Hr Hs]%rowid_order_cons. apply rowid_order_cons. split; [|by apply IH].
  intros x' Hx'. rewrite Hid.
  apply list_elem_of_lookup in Hx' as [k Hk].
  destruct (Forall2_lookup_r _ _ _ _ _ Hrest Hk) as (x & Hx & Hxx').
  rewrite Hxx'. apply Hr. by eapply list_elem_of_lookup_2.
Qed.

End Lookup.

(** ** Creating an event *)

Section Create.

Implicit Types (data : gmap string string) (db : Database).

Lemma validate_title_empty : validate_title "" = (false, msg_title_short).
Proof. reflexivity. Qed.

Lemma validate_date_empty clock : validate_date "" clock = (false, msg_date_format).
Proof. reflexivity. Qed.

Lemma validate_notes_empty : validate_notes "" = (true, "").
Proof. reflexivity. Qed.

Lemma check_notes_None data :
  check_notes data = None ↔
  ∀ n, data !! "notes" = Some n → (validate_notes n).1 = true.
Proof.
  split; [|apply check_notes_ok].
  unfold check_notes. intros Hc n Hn. rewrite Hn in Hc.
  case_bool_decide as He; [by subst n|].
  by destruct (validate_notes n) as [[] e].
Qed.

(** A date the validator accepts is returned as the stored form of a
    real calendar day that is not before the day of the clock. *)
Lemma validate_date_accepted s clock :
  (validate_date s clock).1 = true →
  ∃ y m d, DateText.lenient s y m d ∧ ¬ day_before y m d clock
           ∧ DateText.real_date y m d
           ∧ validate_date s clock = (true, canonical y m d).
Proof.
  intros Hv. destruct (validate_date_cases s clock)
    as [[Hno Hc]|[(y & m & d & Hl & Hb & Hc)|(y & m & d & Hl & Hb & Hc)]];
    rewrite Hc in Hv; try done.
  exists y, m, d. split; [done|]. split; [done|]. split; [|done].
  by destruct Hl as (? & ? & ? & ? & ? & ? & ? & ?).
Qed.

(** The two outcomes of [add_event]. *)
Lemma add_event_cases data clock timestamp db :
  (creatable data clock db
   ∧ add_event data clock timestamp db
     = (mkDatabase (rows db ++ [created_row data clock timestamp db])
                   (next_rowid db),
        JsonRow (created_row data clock timestamp db)))
  ∨ (¬ creatable data clock db
     ∧ ∃ status e, add_event data clock timestamp db = (db, JsonError status e)
                   ∧ (status = 400 ∨ MAX_ROWID < next_rowid db)).
Proof.
  unfold add_event, creatable, created_row, get_or_empty.
  case_bool_decide as Hempty.
  { right. split; [|eauto 10]. subst data.
    intros ((t & Ht & _) & _). by rewrite lookup_empty in Ht. }
  destruct (data !! "title") as [t|] eqn:Ht; simpl.
  2:{ right. split; [|eauto 10]. by intros ((t & [=] & _) & _). }
  destruct (validate_title t) as [[] e1] eqn:Hvt; simpl.
  2:{ right. split; [|eauto 10]. intros ((t' & [= <-] & Hv) & _).
      by rewrite Hvt in Hv. }
  destruct (data !! "date") as [d|] eqn:Hd; simpl.
  2:{ right. split; [by intros (_ & (d & [=] & _) & _)|].
      rewrite ?validate_date_empty. simpl. eauto 10. }
  destruct (validate_date d clock) as [[] out] eqn:Hvd; simpl.
  2:{ right. split; [|eauto 10]. intros (_ & (d' & [= <-] & Hv) & _).
      by rewrite Hvd in Hv. }
  destruct (check_notes data) as [en|] eqn:Hn.
  { right. split; [|eauto 10]. intros (_ & _ & Hnotes%check_notes_ok & _).
    congruence. }
  unfold sql_insert. destruct (Z.ltb_spec MAX_ROWID (next_rowid db)) as [Hfull|Hroom].
  { right. split; [|eauto 10]. intros (_ & _ & _ & ?). lia. }
  left. split.
  { split; [exists t; by rewrite Hvt|]. split; [exists d; by rewrite Hvd|].
    split; [by apply check_notes_None|lia]. }
  cbn [rows]. rewrite select_by_id_app_new; [done| | |done].
  - by apply next_rowid_bindable.
  - intros x Hx%next_rowid_fresh. simpl. lia.
Qed.

Lemma created_row_stored_ok data clock timestamp db :
  creatable data clock db → stored_ok (created_row data clock timestamp db).
Proof.
  intros ((t & Ht & Hvt) & (d & Hd & Hvd) & Hn & _).
  unfold stored_ok, created_row, get_or_empty. simpl. rewrite Ht, Hd. simpl.
  split; [done|]. split.
  - apply validate_date_accepted in Hvd as (y & m & dd & _ & _ & Hreal & ->).
    by exists y, m, dd.
  - destruct (data !! "notes") as [n|]; [by apply Hn|done].
Qed.

End Create.

Section CreateReadDelete.

Implicit Types (data : gmap string string) (db : Database).

(** X1. A body with a valid title and date (and valid notes, if any)
    creates exactly one row, appended to the table and returned: its id
    is above every id in the table and above the recorded sequence value,
    its title is the one given, its date is the stored form of the date
    given, and location and notes default to the empty text. *)
Theorem add_event_creates data (clock : datetime) (timestamp : string) db :
  creatable data clock db →
  add_event data clock timestamp db
  = (mkDatabase (rows db ++ [created_row data clock timestamp db])
                (id (created_row data clock timestamp db)),
     JsonRow (created_row data clock timestamp db))
  ∧ data !! "title" = Some (title (created_row data clock timestamp db))
  ∧ (∃ d y m dd, data !! "date" = Some d ∧ DateText.lenient d y m dd
                 ∧ date (created_row data clock timestamp db) = canonical y m dd)
  ∧ location (created_row data clock timestamp db) = default "" (data !! "location")
  ∧ notes (created_row data clock timestamp db) = default "" (data !! "notes")
  ∧ (∀ r, r ∈ rows db → id r < id (created_row data clock timestamp db))
  ∧ seq db < id (created_row data clock timestamp db).
Proof.
  intros Hok.
  destruct (add_event_cases data clock timestamp db) as [[_ Hadd]|[Hno _]]; [|done].
  split; [done|].
  destruct Hok as ((t & Ht & Hvt) & (d & Hd & Hvd) & Hn & _).
  unfold created_row, get_or_empty. simpl. rewrite Ht, Hd. simpl.
  split; [done|]. split.
  { apply validate_date_accepted in Hvd as (y & m & dd & Hl & _ & _ & ->).
    by exists d, y, m, dd. }
  split; [done|]. split; [done|].
  split; [intros r Hr; by apply next_rowid_fresh|].
  unfold next_rowid. lia.
Qed.

Lemma add_event_creates_witness :
  add_event {[ "title" := "Valid Title"; "date" := "01/01/2026" ]}
    (mkDatetime 2025 6 15 8 0 0 0) "2025-06-15 06:00:00" empty_db
  = (mkDatabase [mkRow 1 "Valid Title" "2026-01-01" "" "" "2025-06-15 06:00:00"] 1,
     JsonRow (mkRow 1 "Valid Title" "2026-01-01" "" "" "2025-06-15 06:00:00")).
Proof.
  refine (proj1 (add_event_creates
                   {[ "title" := "Valid Title"; "date" := "01/01/2026" ]}
                   (mkDatetime 2025 6 15 8 0 0 0) "2025-06-15 06:00:00"
                   empty_db _)).
  split; [exists "Valid Title"; split; reflexivity|].
  split; [exists "01/01/2026"; split; reflexivity|].
  split; [intros n Hn; vm_compute in Hn; discriminate Hn|].
  vm_compute. discriminate.
Defined.

(** X2. [add_event] refuses exactly the bodies that are not creatable
    (title or date missing or invalid, notes invalid, or no rowid left),
    and a refusal leaves the database as it was. *)
Theorem add_event_rejects data (clock : datetime) (timestamp : string) db :
  ¬ creatable data clock db
  ↔ ∃ status e, add_event data clock timestamp db = (db, JsonError status e).
Proof.
  destruct (add_event_cases data clock timestamp db)
    as [[Hok Hadd]|[Hno (status & e & Hadd & _)]].
  - split; [done|]. intros (status & e & Herr). rewrite Hadd in Herr.
    discriminate Herr.
  - split; eauto.
Qed.

(** X3. An event just created is found under its id, exactly as it was
    returned, and every other id is answered as before the insert. *)
Theorem add_event_then_get data (clock : datetime) (timestamp : string) db :
  creatable data clock db →
  get_event (next_rowid db) (rows (add_event data clock timestamp db).1)
  = (add_event data clock timestamp db).2
  ∧ ∀ i, i ≠ next_rowid db →
         get_event i (rows (add_event data clock timestamp db).1)
         = get_event i (rows db).
Proof.
  intros Hok.
  destruct (add_event_cases data clock timestamp db) as [[_ ->]|[Hno _]]; [|done].
  destruct Hok as (_ & _ & _ & Hroom).
  simpl. unfold get_event. split.
  - rewrite (next_rowid_bindable _ Hroom). simpl.
    rewrite select_by_id_app_new; [done| | |done].
    + by apply next_rowid_bindable.
    + intros x Hx%next_rowid_fresh. lia.
  - intros i Hi. by rewrite select_by_id_app_old by (simpl; congruence).
Qed.

Lemma add_event_then_get_witness :
  get_event 1
    (rows (add_event {[ "title" := "Valid Title"; "date" := "01/01/2026" ]}
             (mkDatetime 2025 6 15 8 0 0 0) "2025-06-15 06:00:00" empty_db).1)
  = JsonRow (mkRow 1 "Valid Title" "2026-01-01" "" "" "2025-06-15 06:00:00").
Proof.
  refine (proj1 (add_event_then_get
                   {[ "title" := "Valid Title"; "date" := "01/01/2026" ]}
                   (mkDatetime 2025 6 15 8 0 0 0) "2025-06-15 06:00:00"
                   empty_db _)).
  split; [exists "Valid Title"; split; reflexivity|].
  split; [exists "01/01/2026"; split; reflexivity|].
  split; [intros n Hn; vm_compute in Hn; discriminate Hn|].
  vm_compute. discriminate.
Defined.

(** X4. In a table with distinct ids and for an id of 64 bits,
    [get_event] returns a row exactly when that row is in the table
    under the requested id, and answers 404 exactly when no row has that
    id. For a larger id the lookup raises and nothing catches it. *)
Theorem get_event_found_iff (event_id : Z) (t : Store) (r : Row) :
  rowid_order t →
  (Sql.bindable event_id = true →
   (get_event event_id t = JsonRow r ↔ r ∈ t ∧ id r = event_id)
   ∧ (get_event event_id t = JsonError 404 "Event not found"
      ↔ ∀ x, x ∈ t → id x ≠ event_id))
  ∧ (Sql.bindable event_id = false →
     get_event event_id t = Uncaught msg_overflow).
Proof.
  intros Ht. unfold get_event. split; intros Hb; rewrite Hb; [|done]. simpl.
  split.
  - split.
    + destruct (Sql.select_by_id event_id t) as [x|] eqn:Hs; [|done].
      intros [= <-]. by apply select_by_id_Some.
    + intros [Hr <-]. by rewrite select_by_id_elem.
  - rewrite <- select_by_id_None by done.
    by destruct (Sql.select_by_id event_id t).
Qed.

Lemma get_event_found_iff_witness :
  get_event 2 [mkRow 1 "Team meeting" "2025-06-20" "" "" "t1";
               mkRow 2 "Board call" "2025-06-21" "" "" "t2"]
  = JsonRow (mkRow 2 "Board call" "2025-06-21" "" "" "t2")
  ∧ get_event 9223372036854775808
      [mkRow 1 "Team meeting" "2025-06-20" "" "" "t1";
       mkRow 2 "Board call" "2025-06-21" "" "" "t2"]
    = Uncaught msg_overflow.
Proof.
  split.
  - apply (get_event_found_iff 2
             [mkRow 1 "Team meeting" "2025-06-20" "" "" "t1";
              mkRow 2 "Board call" "2025-06-21" "" "" "t2"]).
    + unfold rowid_order. repeat constructor; simpl; lia.
    + reflexivity.
    + split; [|reflexivity]. apply elem_of_cons; right. apply elem_of_cons; by left.
  - apply (get_event_found_iff 9223372036854775808
             [mkRow 1 "Team meeting" "2025-06-20" "" "" "t1";
              mkRow 2 "Board call" "2025-06-21" "" "" "t2"]
             (mkRow 1 "Team meeting" "2025-06-20" "" "" "t1")).
    + unfold rowid_order. repeat constructor; simpl; lia.
    + reflexivity.
Defined.

(** X5. For an id of 64 bits, [delete_event] answers with what
    [get_event] would have answered just before (the stored row, or 404
    with the table untouched); afterwards no row has the id, so a lookup
    and a second delete both answer 404, and the rows with other ids are
    all still there. For a larger id it answers with the 500 error of
    the failed binding and the table is untouched. *)
Theorem delete_event_removes (event_id : Z) (t : Store) :
  (Sql.bindable event_id = true →
   (delete_event event_id t).2 = get_event event_id t
   ∧ (∀ r, r ∈ (delete_event event_id t).1 ↔ r ∈ t ∧ id r ≠ event_id)
   ∧ get_event event_id (delete_event event_id t).1
     = JsonError 404 "Event not found"
   ∧ delete_event event_id (delete_event event_id t).1
     = ((delete_event event_id t).1, JsonError 404 "Event not found"))
  ∧ (Sql.bindable event_id = false →
     delete_event event_id t = (t, JsonError 500 msg_overflow)).
Proof.
  split; intros Hb; [|unfold delete_event; by rewrite Hb].
  assert (∀ r, r ∈ (delete_event event_id t).1 ↔ r ∈ t ∧ id r ≠ event_id) as Hin.
  { intros r. unfold delete_event. rewrite Hb. simpl.
    destruct (Sql.select_by_id event_id t) as [x|] eqn:Hs; simpl.
    - apply elem_of_sql_delete.
    - split; [|tauto]. intros Hr. split; [done|].
      by apply (proj1 (select_by_id_None _ _ Hb) Hs). }
  assert (Sql.select_by_id event_id (delete_event event_id t).1 = None) as Hgone.
  { apply select_by_id_None; [done|]. intros r Hr. by apply Hin in Hr as [_ ?]. }
  split; [|split; [done|split]].
  - unfold delete_event, get_event. rewrite Hb. simpl.
    by destruct (Sql.select_by_id event_id t).
  - unfold get_event. by rewrite Hb, Hgone.
  - unfold delete_event at 1. by rewrite Hb, Hgone.
Qed.

Lemma delete_event_removes_witness :
  delete_event 1 [mkRow 1 "Team meeting" "2025-06-20" "" "" "t1";
                  mkRow 2 "Board call" "2025-06-21" "" "" "t2"]
  = ([mkRow 2 "Board call" "2025-06-21" "" "" "t2"],
     JsonRow (mkRow 1 "Team meeting" "2025-06-20" "" "" "t1"))
  ∧ get_event 1
      (delete_event 1 [mkRow 1 "Team meeting" "2025-06-20" "" "" "t1";
                       mkRow 2 "Board call" "2025-06-21" "" "" "t2"]).1
    = JsonError 404 "Event not found"
  ∧ delete_event 9223372036854775808
      [mkRow 1 "Team meeting" "2025-06-20" "" "" "t1"]
    = ([mkRow 1 "Team meeting" "2025-06-20" "" "" "t1"],
       JsonError 500 msg_overflow).
Proof.
  split; [reflexivity|]. split.
  - apply (delete_event_removes 1
             [mkRow 1 "Team meeting" "2025-06-20" "" "" "t1";
              mkRow 2 "Board call" "2025-06-21" "" "" "t2"]).
    reflexivity.
  - apply (delete_event_removes 9223372036854775808
             [mkRow 1 "Team meeting" "2025-06-20" "" "" "t1"]).
    reflexivity.
Defined.

End CreateReadDelete.

(** ** A successful update *)

Section UpdateApplied.

Implicit Types (data : gmap string string) (t : Store) (r : Row).

Lemma check_title_None data :
  check_title data = None ↔
  ∀ s, data !! "title" = Some s → (validate_title s).1 = true.
Proof.
  split; [|apply check_title_ok].
  unfold check_title. intros Hc s Hs. rewrite Hs in Hc.
  by destruct (validate_title s) as [[] e].
Qed.

(** What a validated body holds: a valid title, a date in stored form,
    valid notes. *)
Lemma validate_update_inr data clock data' :
  validate_update data clock = inr data' →
  (∀ s, data' !! "title" = Some s → (validate_title s).1 = true)
  ∧ (∀ d, data' !! "date" = Some d →
          ∃ y m dd, DateText.real_date y m dd ∧ d = canonical y m dd)
  ∧ (∀ n, data' !! "notes" = Some n → (validate_notes n).1 = true).
Proof.
  unfold validate_update.
  destruct (check_title data) eqn:Ht; [done|].
  destruct (check_date data clock) as [e|d1] eqn:Hd; [done|].
  destruct (check_notes d1) eqn:Hn; [done|]. intros [= <-].
  pose proof (check_date_frame _ _ _ Hd) as [Hframe _].
  split; [|split].
  - intros s Hs. rewrite Hframe in Hs by done.
    by apply (proj1 (check_title_None data) Ht).
  - intros d Hdate. unfold check_date in Hd.
    destruct (data !! "date") as [d0|] eqn:Hd0.
    + destruct (validate_date d0 clock) as [[] out] eqn:Hv; [|done].
      injection Hd as <-. rewrite lookup_insert_eq in Hdate. injection Hdate as <-.
      assert ((validate_date d0 clock).1 = true) as Hacc by (by rewrite Hv).
      apply validate_date_accepted in Hacc as (y & m & dd & _ & _ & Hreal & Hc).
      exists y, m, dd. split; [done|]. congruence.
    + injection Hd as <-. congruence.
  - by apply check_notes_None.
Qed.

Lemma validate_update_stored data clock :
  valid_fields data clock →
  validate_update data clock = inr (stored_body data clock).
Proof.
  intros Hv. pose proof Hv as (_ & Hdate & _).
  destruct (validate_update_valid _ _ Hv) as (data' & -> & Hd). f_equal.
  unfold check_date in Hd. unfold stored_body.
  destruct (data !! "date") as [d|]; [|by injection Hd].
  specialize (Hdate d eq_refl).
  destruct (validate_date d clock) as [[] out]; [|done]. by injection Hd.
Qed.

Lemma assign_assignments_of data r :
  assign r (assignments_of data) = updated_row data r.
Proof.
  unfold assign, assignments_of, updated_row, updatable. destruct r. simpl.
  by destruct (data !! "title"), (data !! "date"), (data !! "location"),
    (data !! "notes").
Qed.

Lemma stored_body_dom data clock f :
  is_Some (stored_body data clock !! f) ↔ is_Some (data !! f).
Proof.
  unfold stored_body. destruct (data !! "date") as [d|] eqn:Hd; [|done].
  destruct (decide (f = "date")) as [->|Hf].
  - rewrite lookup_insert_eq, Hd. split; eauto.
  - by rewrite lookup_insert_ne.
Qed.

(** X6. An update of an existing event whose fields all pass validation
    and which names at least one updatable column rewrites the rows with
    that id and no other: each named column takes the value given (the
    date in its stored form), the others keep theirs. The row returned
    is the one then found under the id. *)
Theorem update_event_applies (event_id : Z) data (clock : datetime) t r :
  Sql.select_by_id event_id t = Some r →
  valid_fields data clock →
  has_updatable data = true →
  update_event event_id data clock t
  = (map (λ x, if bool_decide (id x = event_id)
               then updated_row (stored_body data clock) x else x) t,
     JsonRow (updated_row (stored_body data clock) r))
  ∧ get_event event_id (update_event event_id data clock t).1
    = JsonRow (updated_row (stored_body data clock) r)
  ∧ (∀ d, data !! "date" = Some d →
          ∃ y m dd, DateText.lenient d y m dd
                    ∧ date (updated_row (stored_body data clock) r)
                      = canonical y m dd)
  ∧ (data !! "date" = None →
     date (updated_row (stored_body data clock) r) = date r)
  ∧ title (updated_row (stored_body data clock) r)
    = default (title r) (data !! "title")
  ∧ location (updated_row (stored_body data clock) r)
    = default (location r) (data !! "location")
  ∧ notes (updated_row (stored_body data clock) r)
    = default (notes r) (data !! "notes").
Proof.
  intros Hsel Hvalid Hany.
  pose proof (select_by_id_bindable _ _ _ Hsel) as Hb.
  assert (update_event event_id data clock t
          = (map (λ x, if bool_decide (id x = event_id)
                       then updated_row (stored_body data clock) x else x) t,
             JsonRow (updated_row (stored_body data clock) r))) as Hupd.
  { rewrite (update_event_validated _ _ _ _ _ (validate_update_stored _ _ Hvalid)).
    rewrite (has_updatable_ext _ _ (stored_body_dom data clock)), Hany, Hb.
    cbv zeta. simpl negb. cbv iota. unfold sql_update.
    assert (∀ x, (if bool_decide (id x = event_id)
                  then assign x (assignments_of (stored_body data clock)) else x)
                 = (if bool_decide (id x = event_id)
                    then updated_row (stored_body data clock) x else x)) as Hext
      by (intros x; by rewrite assign_assignments_of).
    rewrite (map_ext _ _ Hext).
    rewrite select_by_id_map by (intros x; by case_bool_decide).
    rewrite Hsel. simpl.
    apply select_by_id_Some in Hsel as [_ Hid].
    by rewrite bool_decide_eq_true_2. }
  split; [done|]. rewrite Hupd. split.
  { simpl. unfold get_event. rewrite Hb. simpl.
    rewrite select_by_id_map by (intros x; by case_bool_decide).
    rewrite Hsel. simpl.
    apply select_by_id_Some in Hsel as [_ Hid].
    by rewrite bool_decide_eq_true_2. }
  destruct Hvalid as (_ & Hdate & _).
  unfold updated_row, stored_body. simpl.
  destruct (data !! "date") as [d|] eqn:Hd.
  - rewrite lookup_insert_eq, !lookup_insert_ne by done. simpl.
    split; [|done]. intros d' [= <-].
    destruct (validate_date_accepted _ _ (Hdate d eq_refl))
      as (y & m & dd & Hl & _ & _ & ->).
    by exists y, m, dd.
  - rewrite Hd. by split.
Qed.

Lemma update_event_applies_witness :
  let t := [mkRow 7 "Team meeting" "2025-06-20" "Room 2" "" "2025-06-01 09:00:00"] in
  update_event 7 {[ "date" := "1/7/2025"; "notes" := "bring slides" ]}
    (mkDatetime 2025 6 15 8 0 0 0) t
  = ([mkRow 7 "Team meeting" "2025-07-01" "Room 2" "bring slides"
            "2025-06-01 09:00:00"],
     JsonRow (mkRow 7 "Team meeting" "2025-07-01" "Room 2" "bring slides"
                    "2025-06-01 09:00:00")).
Proof.
  intros t.
  refine (proj1 (update_event_applies 7
                   {[ "date" := "1/7/2025"; "notes" := "bring slides" ]}
                   (mkDatetime 2025 6 15 8 0 0 0) t
                   (mkRow 7 "Team meeting" "2025-06-20" "Room 2" ""
                          "2025-06-01 09:00:00") _ _ _)).
  - reflexivity.
  - repeat split; intros v Hv; vm_compute in Hv;
      try discriminate Hv; injection Hv as <-; reflexivity.
  - reflexivity.
Defined.

Lemma has_updatable_false data f :
  has_updatable data = false → f ∈ updatable → data !! f = None.
Proof.
  unfold has_updatable. rewrite <- not_true_iff_false, existsb_exists.
  intros Hno Hf. destruct (data !! f) as [v|] eqn:E; [|done].
  exfalso. apply Hno. exists f. split; [by apply list_elem_of_In|].
  apply bool_decide_eq_true. by rewrite E.
Qed.

(** X13. An update whose body names none of title, date, location and
    notes (an empty body, or one with other keys only) is answered with
    the 400 error "No fields to update" whether or not the id exists,
    and writes nothing. *)
Theorem update_event_no_fields (event_id : Z) data (clock : datetime) t :
  has_updatable data = false →
  update_event event_id data clock t = (t, JsonError 400 "No fields to update").
Proof.
  intros Hnone.
  assert (valid_fields data clock) as Hvalid.
  { repeat split; intros v Hv.
    - by rewrite (has_updatable_false _ _ Hnone updatable_title) in Hv.
    - by rewrite (has_updatable_false _ _ Hnone updatable_date) in Hv.
    - by rewrite (has_updatable_false _ _ Hnone updatable_notes) in Hv. }
  rewrite (update_event_validated _ _ _ _ _ (validate_update_stored _ _ Hvalid)).
  by rewrite (has_updatable_ext _ _ (stored_body_dom data clock)), Hnone.
Qed.

Lemma update_event_no_fields_witness :
  let t := [mkRow 7 "Team meeting" "2025-06-20" "Room 2" "" "2025-06-01 09:00:00"] in
  update_event 7 {[ "id" := "9"; "created_at" := "never" ]}
    (mkDatetime 2025 6 15 8 0 0 0) t
  = (t, JsonError 400 "No fields to update").
Proof.
  intros t.
  apply (update_event_no_fields 7 {[ "id" := "9"; "created_at" := "never" ]}
           (mkDatetime 2025 6 15 8 0 0 0) t).
  reflexivity.
Defined.

End UpdateApplied.

(** ** The server as a whole *)

Section Server.

Implicit Types (data : gmap string string) (db : Database) (t : Store).

Lemma Forall_List_filter (P : Row → Prop) (f : Row → bool) t :
  Forall P t → Forall P (List.filter f t).
Proof.
  rewrite !Forall_forall. intros H r [Hr _]%elem_of_List_filter. by apply H.
Qed.

Lemma db_ok_filter (f : Row → bool) t s :
  db_ok (mkDatabase t s) → db_ok (mkDatabase (List.filter f t) s).
Proof.
  intros (Hord & Hseq & Hid & Hrows). unfold db_ok. simpl in *.
  split; [by apply filter_rowid_order|]. split; [done|].
  split; by apply Forall_List_filter.
Qed.

Lemma max_rowid_le t s :
  0 ≤ s → Forall (λ r, 0 < id r ≤ s) t → max_rowid t ≤ s.
Proof.
  intros Hs. induction 1 as [|r t Hr _ IH]; simpl; lia.
Qed.

Lemma db_ok_next_rowid db : db_ok db → next_rowid db = seq db + 1.
Proof.
  intros (_ & Hseq & Hid & _). unfold next_rowid.
  pose proof (max_rowid_le _ _ Hseq Hid). lia.
Qed.

Lemma stored_ok_updated data r :
  (∀ s, data !! "title" = Some s → (validate_title s).1 = true) →
  (∀ d, data !! "date" = Some d →
        ∃ y m dd, DateText.real_date y m dd ∧ d = canonical y m dd) →
  (∀ n, data !! "notes" = Some n → (validate_notes n).1 = true) →
  stored_ok r → stored_ok (updated_row data r).
Proof.
  intros Ht Hd Hn (Hrt & Hrd & Hrn). unfold stored_ok, updated_row. simpl.
  split; [|split].
  - destruct (data !! "title") as [s|]; [by apply Ht|done].
  - destruct (data !! "date") as [d|]; [|done]. simpl.
    destruct (Hd d eq_refl) as (y & m & dd & ? & ->). eauto.
  - destruct (data !! "notes") as [n|]; [by apply Hn|done].
Qed.

Lemma elem_of_sql_update a i t r' :
  r' ∈ sql_update a i t →
  ∃ r, r ∈ t ∧ id r' = id r ∧ (r' = r ∨ r' = assign r a).
Proof.
  unfold sql_update. rewrite list_elem_of_In, in_map_iff.
  intros (r & <- & Hr%list_elem_of_In). exists r. split; [done|].
  case_bool_decide; [|by split; [|left]].
  split; [|by right]. by destruct (assign_frame a r) as (-> & _).
Qed.

Lemma sql_update_same_ids a i t :
  Forall2 (λ r r', id r' = id r) t (sql_update a i t).
Proof.
  eapply Forall2_impl; [apply (sql_update_frame a i t)|].
  by intros r r' (? & _).
Qed.

Lemma get_events_table month clock t :
  (get_events month clock t).1 = cleanup_past_events clock t.
Proof.
  unfold get_events.
  by destruct (match month with
               | Some m => if bool_decide (m = "") then _ else _
               | None => _
               end).
Qed.

(** What one request can do to the database: the sequence value never
    goes down, and every row afterwards either carries the id of a row
    that was there, or is the one row just created, whose id is then the
    sequence value. *)
Lemma handle_step req clock db :
  seq db ≤ seq (handle req clock db).1
  ∧ ∀ r', r' ∈ rows (handle req clock db).1 →
          (∃ r, r ∈ rows db ∧ id r = id r')
          ∨ (id r' = next_rowid db ∧ seq (handle req clock db).1 = next_rowid db).
Proof.
  destruct req as [month|i|data ts|i data|i|]; simpl.
  - pose proof (get_events_table month clock (rows db)) as Ht.
    destruct (get_events month clock (rows db)) as [t resp]. simpl in *. subst t.
    split; [done|]. intros r' [Hr _]%cleanup_keeps. eauto.
  - split; [done|]. eauto.
  - destruct (add_event_cases data clock ts db)
      as [[_ ->]|[_ (st & e & -> & _)]]; simpl.
    + split; [unfold next_rowid; lia|].
      intros r' [Hr|Hr]%elem_of_app; [eauto|].
      apply list_elem_of_singleton in Hr as ->. by right.
    + split; [done|]. eauto.
  - destruct (update_event i data clock (rows db)) as [t resp] eqn:Hu. simpl.
    split; [done|]. intros r' Hr'. left.
    assert (t = (update_event i data clock (rows db)).1) as -> by (by rewrite Hu).
    destruct (validate_update_shape data clock) as [[e He]|(data' & Hv & _)].
    + unfold update_event in Hr'. rewrite He in Hr'. eauto.
    + rewrite (update_event_validated _ _ _ _ _ Hv) in Hr'.
      destruct (has_updatable data'); [|eauto].
      destruct (Sql.bindable i); [|eauto]. simpl negb in Hr'. cbv iota in Hr'.
      assert (r' ∈ sql_update (assignments_of data') i (rows db)) as Hin
        by (cbv zeta in Hr'; by destruct (Sql.select_by_id _ _)).
      apply elem_of_sql_update in Hin as (r & Hr & Hid & _). eauto.
  - unfold delete_event. destruct (Sql.bindable i); simpl;
      [|split; [done|]; eauto].
    destruct (Sql.select_by_id i (rows db)); simpl.
    + split; [done|]. intros r' [Hr _]%elem_of_sql_delete. eauto.
    + split; [done|]. eauto.
  - split; [done|]. intros r' [Hr _]%cleanup_keeps. eauto.
Qed.

Lemma handle_db_ok req clock db : db_ok db → db_ok (handle req clock db).1.
Proof.
  intros Hok. destruct req as [month|i|data ts|i data|i|]; simpl.
  - pose proof (get_events_table month clock (rows db)) as Ht.
    destruct (get_events month clock (rows db)) as [t resp]. simpl in *. subst t.
    destruct db as [t s]. by apply db_ok_filter.
  - done.
  - destruct (add_event_cases data clock ts db)
      as [[Hc ->]|[_ (st & e & -> & _)]]; [|done]. simpl.
    pose proof (db_ok_next_rowid _ Hok) as Hnext.
    destruct Hok as (Hord & Hseq & Hid & Hrows). unfold db_ok. simpl.
    split; [|split; [lia|split]].
    + apply rowid_order_snoc; [done|]. intros x Hx. by apply next_rowid_fresh.
    + apply Forall_app. split.
      * eapply Forall_impl; [exact Hid|]. intros x Hx.
        simpl in *. unfold next_rowid in *. lia.
      * constructor; [|done]. simpl in *. unfold next_rowid in *. lia.
    + apply Forall_app. split; [done|].
      constructor; [by apply created_row_stored_ok|done].
  - destruct (update_event i data clock (rows db)) as [t resp] eqn:Hu. simpl.
    assert (t = (update_event i data clock (rows db)).1) as -> by (by rewrite Hu).
    destruct (validate_update_shape data clock) as [[e He]|(data' & Hv & _)].
    + unfold update_event. rewrite He. by destruct db.
    + rewrite (update_event_validated _ _ _ _ _ Hv).
      destruct (has_updatable data'); [|by destruct db].
      destruct (Sql.bindable i); [|by destruct db]. simpl negb. cbv iota.
      assert (db_ok (mkDatabase (sql_update (assignments_of data') i (rows db))
                                (seq db))) as Hnew.
      { destruct Hok as (Hord & Hseq & Hid & Hrows). unfold db_ok. simpl.
        split; [by eapply rowid_order_same_ids; [apply sql_update_same_ids|]|].
        split; [done|].
        rewrite Forall_forall in Hid, Hrows.
        destruct (validate_update_inr _ _ _ Hv) as (Ht & Hd & Hn).
        split; rewrite Forall_forall;
          intros r' (r & Hr & Hidr & Hcase)%elem_of_sql_update.
        - rewrite Hidr. by apply Hid.
        - destruct Hcase as [->| ->]; [by apply Hrows|].
          rewrite assign_assignments_of.
          by apply stored_ok_updated; [..|apply Hrows]. }
      cbv zeta. by destruct (Sql.select_by_id _ _).
  - unfold delete_event. destruct (Sql.bindable i); simpl; [|by destruct db].
    destruct (Sql.select_by_id i (rows db)); simpl.
    + destruct db as [t s]. by apply db_ok_filter.
    + by destruct db.
  - destruct db as [t s]. by apply db_ok_filter.
Qed.

Lemma empty_db_ok : db_ok empty_db.
Proof.
  unfold db_ok, empty_db. simpl.
  split; [constructor|]. split; [lia|]. split; constructor.
Qed.

(** X7. Every request keeps the database well-formed: ids stay distinct
    and ascending, positive and within the recorded sequence value, and
    every stored event keeps a valid title, a date that is the stored
    form of a real calendar day, and valid notes. In particular this
    holds after any run of requests on a freshly created database. *)
Theorem serve_db_ok (reqs : list (Request * datetime)) db :
  (db_ok db → db_ok (serve reqs db)) ∧ db_ok (serve reqs empty_db).
Proof.
  assert (∀ d, db_ok d → db_ok (serve reqs d)) as Hrun.
  { unfold serve. induction reqs as [|[req clock] reqs IH]; intros d Hd; [done|].
    simpl. apply IH. by apply handle_db_ok. }
  split; [apply Hrun|apply Hrun, empty_db_ok].
Qed.

Lemma serve_db_ok_witness :
  db_ok (serve [(PostEvent {[ "title" := "Other Title"; "date" := "1/2/2026" ]}
                   "2025-06-15 06:00:00", mkDatetime 2025 6 15 8 0 0 0);
                (DeleteEvent 1, mkDatetime 2025 6 16 8 0 0 0)]
               (mkDatabase [mkRow 1 "Team meeting" "2025-06-20" "" ""
                                  "2025-06-01 09:00:00"] 1)).
Proof.
  apply serve_db_ok. unfold db_ok. simpl. split; [repeat constructor|].
  split; [lia|]. split; [repeat constructor; simpl; lia|].
  repeat constructor; try reflexivity.
  exists 2025, 6, 20. split; [|reflexivity].
  unfold DateText.real_date. vm_compute. intuition discriminate.
Defined.

(** X8. Ids are never reused: once an id at or below the recorded
    sequence value is absent from a well-formed database (it was deleted
    or purged), no run of requests brings a row with that id back. *)
Theorem serve_never_reuses_id (reqs : list (Request * datetime)) db (i : Z) :
  db_ok db → i ≤ seq db → (∀ r, r ∈ rows db → id r ≠ i) →
  ∀ r, r ∈ rows (serve reqs db) → id r ≠ i.
Proof.
  unfold serve. revert db.
  induction reqs as [|[req clock] reqs IH]; intros db Hok Hseq Habs; [done|].
  simpl. destruct (handle_step req clock db) as [Hmono Hrows].
  apply IH; [by apply handle_db_ok|lia|].
  intros r' [(r & Hr & Hid)|[Hnew _]]%Hrows.
  - rewrite <- Hid. by apply Habs.
  - rewrite Hnew, (db_ok_next_rowid _ Hok). lia.
Qed.

Lemma serve_never_reuses_id_witness :
  Forall (λ r, id r ≠ 1)
    (rows (serve [(PostEvent {[ "title" := "Other Title"; "date" := "1/2/2026" ]}
                     "2025-06-15 06:00:00", mkDatetime 2025 6 15 8 0 0 0)]
                 (mkDatabase [] 1))).
Proof.
  apply Forall_forall.
  apply (serve_never_reuses_id _ (mkDatabase [] 1) 1).
  - unfold db_ok. simpl.
    split; [constructor|]. split; [lia|]. split; constructor.
  - simpl. lia.
  - intros r Hr. inversion Hr.
Defined.

End Server.

(** ** Retention over time and the shape of listings *)

Section Lifecycle.

Implicit Types (data : gmap string string) (db : Database) (t : Store).

Lemma strftime_canonical clock :
  Datetime.strftime_Ymd clock = canonical (year clock) (month clock) (day clock).
Proof. done. Qed.

Lemma text_lt_le_trans a b c :
  Sql.text_lt a b = true → Sql.text_le b c = true → Sql.text_lt a c = true.
Proof.
  intros Hab Hbc. destruct (Sql.text_lt a c) eqn:Hac; [done|].
  assert (Sql.text_le c a = true) as Hca by (by rewrite text_le_negb_lt, Hac).
  pose proof (text_le_trans _ _ _ Hbc Hca) as Hba.
  rewrite text_le_negb_lt, Hab in Hba. done.
Qed.

(** Clock readings in calendar order have stored forms in text order. *)
Lemma day_le_text_le c1 c2 :
  real_clock c1 → real_clock c2 → day_le c1 c2 →
  Sql.text_le (Datetime.strftime_Ymd c1) (Datetime.strftime_Ymd c2) = true.
Proof.
  intros H1 H2 Hle. rewrite text_le_negb_lt.
  destruct (Sql.text_lt _ _) eqn:Hlt; [|done]. exfalso. apply Hle.
  rewrite (strftime_canonical c2) in Hlt. by apply canonical_lt_iff in Hlt.
Qed.

Lemma filter_filter_implied (f g : Row → bool) t :
  (∀ r, f r = true → g r = true) →
  List.filter f (List.filter g t) = List.filter f t
  ∧ List.filter g (List.filter f t) = List.filter f t.
Proof.
  intros Himp. induction t as [|x t [IH1 IH2]]; simpl; [done|].
  destruct (f x) eqn:Hf.
  - rewrite (Himp x Hf). simpl. rewrite Hf, (Himp x Hf), IH1, IH2. done.
  - destruct (g x); simpl; rewrite ?Hf, IH1, IH2; done.
Qed.

(** X9. Cleanups compose by the later day: for clock readings of real
    days in calendar order, a cleanup at the later reading after (or
    before) one at the earlier reading leaves the table that the later
    cleanup alone leaves. *)
Theorem cleanup_past_events_later (c1 c2 : datetime) t :
  real_clock c1 → real_clock c2 → day_le c1 c2 →
  cleanup_past_events c2 (cleanup_past_events c1 t) = cleanup_past_events c2 t
  ∧ cleanup_past_events c1 (cleanup_past_events c2 t) = cleanup_past_events c2 t.
Proof.
  intros H1 H2 Hle. unfold cleanup_past_events, Sql.delete_where_date_lt.
  apply filter_filter_implied. intros r Hr.
  apply negb_true_iff in Hr. apply negb_true_iff.
  destruct (Sql.text_lt (date r) (Datetime.strftime_Ymd c1)) eqn:Hlt; [|done].
  rewrite <- Hr. symmetry.
  by apply (text_lt_le_trans _ _ _ Hlt), day_le_text_le.
Qed.

Lemma cleanup_past_events_later_witness :
  let t := [mkRow 1 "Picnic day" "2025-06-14" "" "" "t1";
            mkRow 2 "Dentist" "2025-06-16" "" "" "t2";
            mkRow 3 "Board call" "2025-06-20" "" "" "t3"] in
  cleanup_past_events (mkDatetime 2025 6 17 9 0 0 0)
    (cleanup_past_events (mkDatetime 2025 6 15 22 0 0 0) t)
  = cleanup_past_events (mkDatetime 2025 6 17 9 0 0 0) t.
Proof.
  intros t.
  refine (proj1 (cleanup_past_events_later (mkDatetime 2025 6 15 22 0 0 0)
                   (mkDatetime 2025 6 17 9 0 0 0) t _ _ _)).
  - unfold real_clock, DateText.real_date. vm_compute. intuition discriminate.
  - unfold real_clock, DateText.real_date. vm_compute. intuition discriminate.
  - unfold day_le, day_before. simpl. lia.
Defined.

(** X10. At a clock reading of a real day, the unfiltered listing holds
    a row whose date is the stored form of a real calendar day exactly
    when the row is in the table and that day is the day of the clock
    or later. *)
Theorem get_events_lists_upcoming (clock : datetime) t (r : Row) (y m d : Z) :
  real_clock clock →
  date r = canonical y m d → DateText.real_date y m d →
  r ∈ listed (get_events None clock t) ↔ r ∈ t ∧ ¬ day_before y m d clock.
Proof.
  intros Hclock Hdate Hreal. unfold listed, get_events. simpl.
  unfold Sql.select_all. rewrite order_by_date_perm.
  by apply cleanup_keeps_calendar.
Qed.

Lemma get_events_lists_upcoming_witness :
  let r := mkRow 2 "Dentist" "2025-06-16" "" "" "t2" in
  r ∈ listed (get_events None (mkDatetime 2025 6 15 22 0 0 0)
                [mkRow 1 "Picnic day" "2025-06-20" "" "" "t1"; r]).
Proof.
  intros r.
  apply (get_events_lists_upcoming (mkDatetime 2025 6 15 22 0 0 0)
           [mkRow 1 "Picnic day" "2025-06-20" "" "" "t1"; r] r 2025 6 16).
  - unfold real_clock, DateText.real_date. vm_compute. intuition discriminate.
  - reflexivity.
  - unfold DateText.real_date. vm_compute. intuition discriminate.
  - split; [|unfold day_before; simpl; lia].
    apply elem_of_cons; right. apply elem_of_cons; by left.
Defined.

(** X11. An event created at some clock reading of a real day is in the
    unfiltered listing at every reading of that same day: what the date
    validator lets through, the cleanup of the day does not purge. *)
Theorem created_event_is_listed data (clock clock' : datetime)
    (timestamp : string) db :
  creatable data clock db → real_clock clock' → same_day clock clock' →
  created_row data clock timestamp db
  ∈ listed (get_events None clock' (rows (add_event data clock timestamp db).1)).
Proof.
  intros Hok Hclock Hsame.
  destruct (add_event_cases data clock timestamp db) as [[_ ->]|[Hno _]]; [|done].
  destruct Hok as (_ & (s & Hs & Hv) & _).
  apply validate_date_accepted in Hv as (y & m & d & _ & Hnb & Hreal & Hval).
  unfold listed, get_events. simpl. unfold Sql.select_all.
  rewrite order_by_date_perm.
  apply (cleanup_keeps_calendar _ _ _ y m d); [|done|done|].
  - unfold created_row, get_or_empty. simpl. by rewrite Hs; simpl; rewrite Hval.
  - split; [apply elem_of_app; right; by left|].
    by rewrite <- (day_before_same_day _ _ _ _ _ Hsame).
Qed.

Lemma created_event_is_listed_witness :
  mkRow 1 "Valid Title" "2025-06-15" "" "" "2025-06-15 06:00:00"
  ∈ listed (get_events None (mkDatetime 2025 6 15 23 59 0 0)
              (rows (add_event {[ "title" := "Valid Title"; "date" := "15/06/2025" ]}
                       (mkDatetime 2025 6 15 8 0 0 0) "2025-06-15 06:00:00"
                       empty_db).1)).
Proof.
  assert (creatable {[ "title" := "Valid Title"; "date" := "15/06/2025" ]}
            (mkDatetime 2025 6 15 8 0 0 0) empty_db) as Hok.
  { split; [exists "Valid Title"; split; reflexivity|].
    split; [exists "15/06/2025"; split; reflexivity|].
    split; [intros n Hn; vm_compute in Hn; discriminate Hn|].
    vm_compute. discriminate. }
  assert (real_clock (mkDatetime 2025 6 15 23 59 0 0)) as Hclock.
  { unfold real_clock, DateText.real_date. vm_compute. intuition discriminate. }
  assert (same_day (mkDatetime 2025 6 15 8 0 0 0) (mkDatetime 2025 6 15 23 59 0 0))
    as Hsame by (unfold same_day; simpl; repeat split; reflexivity).
  exact (created_event_is_listed _ _ _ "2025-06-15 06:00:00" _ Hok Hclock Hsame).
Defined.

(** *** Filtering and ordering commute *)

Lemma insert_by_date_front x (l : list Row) :
  Forall (λ y, Sql.text_le (date x) (date y) = true) l →
  Sql.insert_by_date x l = x :: l.
Proof.
  destruct l as [|y l]; [done|]. intros [Hy _]%Forall_cons. simpl. by rewrite Hy.
Qed.

Lemma insert_by_date_date_order x (l : list Row) :
  date_order l → date_order (Sql.insert_by_date x l).
Proof.
  unfold date_order. induction l as [|y l IH]; intros Hs; simpl.
  - repeat constructor.
  - apply StronglySorted_inv in Hs as [Hs Hy].
    destruct (Sql.text_le (date x) (date y)) eqn:Hle.
    + constructor; [by constructor|]. constructor; [done|].
      eapply Forall_impl; [exact Hy|]. intros z Hz. by eapply text_le_trans.
    + constructor; [by apply IH|].
      rewrite Forall_forall. intros z [->|Hz]%elem_of_insert_by_date.
      * rewrite text_le_negb_lt in Hle. apply negb_false_iff in Hle.
        by apply text_lt_le.
      * rewrite Forall_forall in Hy. by apply Hy.
Qed.

Lemma order_by_date_date_order (l : list Row) : date_order (Sql.order_by_date l).
Proof.
  induction l as [|x l IH]; simpl; [constructor|].
  by apply insert_by_date_date_order.
Qed.

Lemma filter_insert_by_date (f : Row → bool) x (l : list Row) :
  date_order l →
  List.filter f (Sql.insert_by_date x l)
  = if f x then Sql.insert_by_date x (List.filter f l) else List.filter f l.
Proof.
  unfold date_order. induction l as [|y l IH]; intros Hs; simpl.
  - by destruct (f x).
  - apply StronglySorted_inv in Hs as [Hs Hy].
    destruct (Sql.text_le (date x) (date y)) eqn:Hle; simpl.
    + destruct (f x) eqn:Hfx; [|done].
      rewrite insert_by_date_front; [done|].
      assert (Forall (λ z, Sql.text_le (date x) (date z) = true) (y :: l)) as Hall.
      { constructor; [done|]. eapply Forall_impl; [exact Hy|].
        intros z Hz. by eapply text_le_trans. }
      change (Forall (λ z, Sql.text_le (date x) (date z) = true)
                (List.filter f (y :: l))).
      rewrite Forall_forall in Hall |- *.
      intros z [Hz _]%elem_of_List_filter. by apply Hall.
    + rewrite (IH Hs). destruct (f y), (f x); simpl; by rewrite ?Hle.
Qed.

Lemma order_by_date_filter (f : Row → bool) (l : list Row) :
  Sql.order_by_date (List.filter f l) = List.filter f (Sql.order_by_date l).
Proof.
  induction l as [|x l IH]; simpl; [done|].
  rewrite filter_insert_by_date by apply order_by_date_date_order.
  destruct (f x); simpl; by rewrite IH.
Qed.

(** X12. A month filter, wildcards included, whose pattern is within the
    length limit of [LIKE] (or any filter, when the cleanup leaves no
    row to test) gives the unfiltered listing of the same moment cut
    down to the rows whose date matches the filter, in the same order,
    ascending by date. A longer pattern with a row to test makes the
    query fail, uncaught, after the cleanup has been committed. Either
    way the table is left as the unfiltered listing leaves it. *)
Theorem get_events_filter_narrows (m : string) (clock : datetime) t :
  m ≠ "" →
  (Sql.like_pattern_ok (m ++ "%")%string = true
   ∨ cleanup_past_events clock t = [] →
   get_events (Some m) clock t
   = (cleanup_past_events clock t,
      JsonRows (List.filter (like_month m) (listed (get_events None clock t))))
   ∧ date_order (listed (get_events (Some m) clock t)))
  ∧ (Sql.like_pattern_ok (m ++ "%")%string = false →
     cleanup_past_events clock t ≠ [] →
     get_events (Some m) clock t
     = (cleanup_past_events clock t, Uncaught msg_like_too_complex))
  ∧ date_order (listed (get_events None clock t))
  ∧ (get_events (Some m) clock t).1 = (get_events None clock t).1.
Proof.
  intros Hm.
  assert (listed (get_events None clock t)
          = Sql.order_by_date (cleanup_past_events clock t)) as Hall by done.
  split; [|split; [|split]].
  - intros Hok.
    assert (get_events (Some m) clock t
            = (cleanup_past_events clock t,
               JsonRows (List.filter (like_month m)
                           (listed (get_events None clock t))))) as Heq.
    { rewrite Hall. unfold get_events. rewrite bool_decide_eq_false_2 by done.
      rewrite <- (order_by_date_filter (like_month m)).
      destruct Hok as [Hok|Hempty].
      - by rewrite select_where_date_like_ok.
      - by rewrite Hempty. }
    split; [done|]. rewrite Heq, Hall. unfold listed. simpl.
    rewrite <- (order_by_date_filter (like_month m)).
    apply order_by_date_date_order.
  - intros Hlong Hrows. unfold get_events.
    rewrite bool_decide_eq_false_2 by done.
    unfold Sql.select_where_date_like. rewrite Hlong.
    by destruct (cleanup_past_events clock t).
  - rewrite Hall. apply order_by_date_date_order.
  - by rewrite !get_events_table.
Qed.

Lemma get_events_filter_narrows_witness :
  let t := [mkRow 1 "Team meeting" "2025-07-20" "" "" "t1";
            mkRow 2 "Board call" "2025-06-21" "" "" "t2"] in
  get_events (Some "2025-0_") (mkDatetime 2025 6 15 8 0 0 0) t
  = (t, JsonRows [mkRow 2 "Board call" "2025-06-21" "" "" "t2";
                  mkRow 1 "Team meeting" "2025-07-20" "" "" "t1"]).
Proof.
  intros t.
  refine (proj1 (proj1 (get_events_filter_narrows "2025-0_"
                          (mkDatetime 2025 6 15 8 0 0 0) t _) _)).
  - discriminate.
  - left. reflexivity.
Defined.

End Lifecycle.
